(** * MA-crossover + RSI backtest: a shallow embedding of
      [run_backtest_FIXED.py] (the CSV fallback pass) and of the signal
      rule of [ma_cross_rsi_strategy.py].

    Numbers are IEEE-754 binary64 values, as Python's [float] and the
    float64 columns of the data frame are: Rocq's primitive [float].  A
    missing value is the float NaN, and every comparison with NaN is false.
    Timestamps are integer epoch seconds. *)

From Stdlib Require Import String ZArith List Bool Lia PeanoNat Floats.
Import ListNotations.
Set Warnings "-inexact-float".

Local Open Scope float_scope.

(* ------------------------------------------------------------------ *)
(** ** The pandas operations the script calls *)

Module Pandas.

(** [pd.isna] on a float64 scalar. *)
Definition isna (x : float) : bool := is_nan x.

Definition float_of_nat (n : nat) : float :=
  of_uint63 (Uint63.of_Z (Z.of_nat n)).

(** [Series.diff()]: the first entry is NaN, entry [i] is [x[i] - x[i-1]]. *)
Fixpoint diff_from (prev : float) (xs : list float) : list float :=
  match xs with
  | [] => []
  | x :: tl => (x - prev) :: diff_from x tl
  end.

Definition diff (xs : list float) : list float :=
  match xs with
  | [] => []
  | x :: tl => nan :: diff_from x tl
  end.

(** *** [Series.rolling(window=w).mean()]

    pandas computes the rolling mean with one pass over the column (its
    [roll_mean] routine): a running sum with Kahan compensation, to which
    the entering value is added and from which the leaving value is
    removed, kept apart from the count of the values present, the count of
    the negative ones and the length of the current run of equal values. *)

(** Infinities are turned into missing values before the pass. *)
Definition prep_values (xs : list float) : list float :=
  map (fun x => if is_infinity x then nan else x) xs.

Record MeanState := mkMeanState {
  nobs : nat;
  sum_x : float;
  neg_ct : nat;
  compensation_add : float;
  compensation_remove : float;
  num_consecutive_same_value : nat;
  prev_value : float
}.

(** [add_mean]: a missing value is ignored. *)
Definition add_mean (val : float) (s : MeanState) : MeanState :=
  if val =? val then
    let y := val - compensation_add s in
    let t := sum_x s + y in
    {| nobs := S (nobs s);
       sum_x := t;
       neg_ct := if get_sign val then S (neg_ct s) else neg_ct s;
       compensation_add := t - sum_x s - y;
       compensation_remove := compensation_remove s;
       num_consecutive_same_value :=
         if val =? prev_value s then S (num_consecutive_same_value s) else 1%nat;
       prev_value := val |}
  else s.

(** [remove_mean]: a missing value is ignored. *)
Definition remove_mean (val : float) (s : MeanState) : MeanState :=
  if val =? val then
    let y := - val - compensation_remove s in
    let t := sum_x s + y in
    {| nobs := (nobs s - 1)%nat;
       sum_x := t;
       neg_ct := if get_sign val then (neg_ct s - 1)%nat else neg_ct s;
       compensation_add := compensation_add s;
       compensation_remove := t - sum_x s - y;
       num_consecutive_same_value := num_consecutive_same_value s;
       prev_value := prev_value s |}
  else s.

(** [calc_mean]: missing below [minp] values; the value itself when the
    whole window is one run of equal values; zero when rounding gave the
    mean of values of one sign the other sign. *)
Definition calc_mean (minp : nat) (s : MeanState) : float :=
  if ((minp <=? nobs s)%nat && (0 <? nobs s)%nat)%bool then
    let result := sum_x s / float_of_nat (nobs s) in
    if (nobs s <=? num_consecutive_same_value s)%nat then prev_value s
    else if ((neg_ct s =? 0)%nat && (result <? 0))%bool then 0
    else if ((neg_ct s =? nobs s)%nat && (0 <? result))%bool then 0
    else result
  else nan.

(** Rows [i], [i + 1], ... of the pass: the value that leaves the window
    at row [i] is entry [i - w], the value that enters is entry [i]. *)
Fixpoint roll_mean_from (w : nat) (values : list float) (i : nat)
         (rest : list float) (s : MeanState) : list float :=
  match rest with
  | [] => []
  | val :: tl =>
      let s1 := if (w <=? i)%nat then remove_mean (nth (i - w) values nan) s else s in
      let s2 := add_mean val s1 in
      calc_mean w s2 :: roll_mean_from w values (S i) tl s2
  end.

(** The rolling mean with the default [min_periods = w], as the pass runs
    for a window of two rows or more (the program asks for 20, 14 and 50):
    the sums are set up once, at the first row, and carried from row to
    row. *)
Definition rolling_mean (w : nat) (xs : list float) : list float :=
  let values := prep_values xs in
  match values with
  | [] => []
  | v0 :: _ =>
      roll_mean_from w values 0 values
        {| nobs := 0; sum_x := 0; neg_ct := 0;
           compensation_add := 0; compensation_remove := 0;
           num_consecutive_same_value := 0; prev_value := v0 |}
  end.

(** [Series.expanding().max()]: entry [i] is the largest value among the
    entries [0 .. i] that are not missing, and is missing while there is
    none.  [m] is the running maximum. *)
Fixpoint expanding_max_from (m : float) (xs : list float) : list float :=
  match xs with
  | [] => []
  | x :: tl =>
      let m' := if is_nan x then m
                else if is_nan m then x
                else if m <? x then x else m in
      m' :: expanding_max_from m' tl
  end.

Definition expanding_max (xs : list float) : list float :=
  expanding_max_from nan xs.

(** [Series.min()] with the default [skipna=True]: the smallest value that
    is not missing, and missing when there is none. *)
Definition min (xs : list float) : float :=
  fold_left (fun m x => if is_nan x then m
                        else if is_nan m then x
                        else if x <? m then x else m) xs nan.

End Pandas.

(* ------------------------------------------------------------------ *)
(** ** Data *)

(** [datetime.fromtimestamp] gives the naive local time of an epoch.  The
    embedding keeps the epoch the value was made from: a datetime is known
    here only as the image of its epoch.  Neither the local clock (its
    offset, its order across a change of offset) nor the failure of the
    conversion on an epoch outside the range of the platform is modelled. *)
Definition datetime := Z.
Definition fromtimestamp (t : Z) : datetime := t.

(** A row of [ohlcv.csv]. *)
Record Bar := mkBar {
  timestamp : Z;
  open : float;
  high : float;
  low : float;
  close : float;
  volume : float
}.

(** A row of the data frame once the indicator columns are added. *)
Record Row := mkRow {
  bar : Bar;
  fast_ma : float;
  slow_ma : float;
  rsi : float
}.

Inductive Side := LONG | SHORT.
Inductive OrderSide := BUY | SELL.

(** The [position] dict of the script. *)
Record Position := mkPosition {
  pos_side : Side;
  pos_entry_price : float;
  pos_entry_timestamp : Z;
  pos_entry_idx : nat
}.

(** An entry of [fills]. *)
Record Fill := mkFill {
  fill_timestamp : datetime;
  fill_instrument : string;
  fill_side : OrderSide;
  fill_quantity : float;
  fill_price : float;
  fill_commission : float
}.

(** An entry of [positions] (a closed trade). *)
Record ClosedTrade := mkClosedTrade {
  entry_time : datetime;
  exit_time : datetime;
  side : Side;
  quantity : float;
  entry_price : float;
  exit_price : float;
  pnl : float
}.

(** The mutable locals of [fallback_backtest_csv].  [append] adds at the
    end of a list, so the ledgers are in the order of the script. *)
Record State := mkState {
  fills : list Fill;
  positions : list ClosedTrade;
  equity : list float;
  position : option Position;
  current_balance : float
}.

Inductive Signal := NoSignal | BullishCross | BearishCross.

(* ------------------------------------------------------------------ *)
(** ** Indicator columns (lines 51-61) *)

Definition gain_of (x : float) : float := if 0 <? x then x else 0.
Definition loss_of (x : float) : float := if x <? 0 then - x else 0.

Definition fast_ma_col (closes : list float) := Pandas.rolling_mean 20 closes.
Definition slow_ma_col (closes : list float) := Pandas.rolling_mean 50 closes.
Definition price_diff (closes : list float) := Pandas.diff closes.
Definition gain (closes : list float) := map gain_of (price_diff closes).
Definition loss (closes : list float) := map loss_of (price_diff closes).
Definition avg_gain (closes : list float) := Pandas.rolling_mean 14 (gain closes).
Definition avg_loss (closes : list float) := Pandas.rolling_mean 14 (loss closes).

Definition rs (closes : list float) : list float :=
  map (fun '(g, l) => g / (l + 1e-10)) (combine (avg_gain closes) (avg_loss closes)).

Definition rsi_col (closes : list float) : list float :=
  map (fun r => 100 - (100 / (1 + r))) (rs closes).

Definition with_indicators (bars : list Bar) : list Row :=
  let closes := map close bars in
  let fast := fast_ma_col closes in
  let slow := slow_ma_col closes in
  let rsis := rsi_col closes in
  map (fun '(i, b) =>
         {| bar := b;
            fast_ma := nth i fast nan;
            slow_ma := nth i slow nan;
            rsi := nth i rsis nan |})
      (combine (seq 0 (length bars)) bars).

(* ------------------------------------------------------------------ *)
(** ** The signal rule (lines 100 and 153) *)

Definition buy_signal (prev_fast_ma prev_slow_ma fast_ma slow_ma rsi : float) : bool :=
  (prev_fast_ma <=? prev_slow_ma) && (slow_ma <? fast_ma) && (rsi <? 70).

Definition sell_signal (prev_fast_ma prev_slow_ma fast_ma slow_ma rsi : float) : bool :=
  (prev_slow_ma <=? prev_fast_ma) && (fast_ma <? slow_ma) && (30 <? rsi).

(** The [if] / [elif] of the loop body read as a classification. *)
Definition classify (prev_fast_ma prev_slow_ma fast_ma slow_ma rsi : float) : Signal :=
  if buy_signal prev_fast_ma prev_slow_ma fast_ma slow_ma rsi then BullishCross
  else if sell_signal prev_fast_ma prev_slow_ma fast_ma slow_ma rsi then BearishCross
  else NoSignal.

(** The two NaN guards of lines 91-94. *)
Definition skipped (prev_bar current_bar : Row) : bool :=
  (Pandas.isna (fast_ma current_bar) || Pandas.isna (slow_ma current_bar)
   || Pandas.isna (rsi current_bar))
  || (Pandas.isna (fast_ma prev_bar) || Pandas.isna (slow_ma prev_bar)).

Definition signal_of (prev_bar current_bar : Row) : Signal :=
  classify (fast_ma prev_bar) (slow_ma prev_bar)
           (fast_ma current_bar) (slow_ma current_bar) (rsi current_bar).

(* ------------------------------------------------------------------ *)
(** ** The position simulator (lines 102-203) *)

Definition starting_balance : float := 100000.0.

Definition init_state : State :=
  {| fills := []; positions := []; equity := [100000.0];
     position := None; current_balance := starting_balance |}.

(** Lines 103-128: close an existing short at the next bar's open. *)
Definition close_short (next_bar : Row) (st : State) : State :=
  match position st with
  | Some p =>
      match pos_side p with
      | SHORT =>
          let exit_price := open (bar next_bar) in
          let pnl := (pos_entry_price p - exit_price) * 1.0 in
          let fees := exit_price * 0.0001 * 1.0 in
          let net_pnl := pnl - fees in
          {| fills := fills st ++
               [ {| fill_timestamp := fromtimestamp (timestamp (bar next_bar));
                    fill_instrument := "TEST.SIM";
                    fill_side := BUY;
                    fill_quantity := 1.0;
                    fill_price := exit_price;
                    fill_commission := fees |} ];
             positions := positions st ++
               [ {| entry_time := fromtimestamp (pos_entry_timestamp p);
                    exit_time := fromtimestamp (timestamp (bar next_bar));
                    side := SHORT;
                    quantity := 1.0;
                    entry_price := pos_entry_price p;
                    exit_price := exit_price;
                    pnl := net_pnl |} ];
             equity := equity st;
             position := None;
             current_balance := current_balance st + net_pnl |}
      | LONG => st
      end
  | None => st
  end.

(** Lines 131-150: open a long at the next bar's open when the slot is empty. *)
Definition open_long (next_bar : Row) (i : nat) (st : State) : State :=
  match position st with
  | None =>
      let entry_price := open (bar next_bar) in
      let fees := entry_price * 0.0001 * 1.0 in
      {| fills := fills st ++
           [ {| fill_timestamp := fromtimestamp (timestamp (bar next_bar));
                fill_instrument := "TEST.SIM";
                fill_side := BUY;
                fill_quantity := 1.0;
                fill_price := entry_price;
                fill_commission := fees |} ];
         positions := positions st;
         equity := equity st;
         position := Some {| pos_side := LONG;
                             pos_entry_price := entry_price;
                             pos_entry_timestamp := timestamp (bar next_bar);
                             pos_entry_idx := i + 1 |};
         current_balance := current_balance st - fees |}
  | Some _ => st
  end.

(** Lines 156-181: close an existing long at the next bar's open. *)
Definition close_long (next_bar : Row) (st : State) : State :=
  match position st with
  | Some p =>
      match pos_side p with
      | LONG =>
          let exit_price := open (bar next_bar) in
          let pnl := (exit_price - pos_entry_price p) * 1.0 in
          let fees := exit_price * 0.0001 * 1.0 in
          let net_pnl := pnl - fees in
          {| fills := fills st ++
               [ {| fill_timestamp := fromtimestamp (timestamp (bar next_bar));
                    fill_instrument := "TEST.SIM";
                    fill_side := SELL;
                    fill_quantity := 1.0;
                    fill_price := exit_price;
                    fill_commission := fees |} ];
             positions := positions st ++
               [ {| entry_time := fromtimestamp (pos_entry_timestamp p);
                    exit_time := fromtimestamp (timestamp (bar next_bar));
                    side := LONG;
                    quantity := 1.0;
                    entry_price := pos_entry_price p;
                    exit_price := exit_price;
                    pnl := net_pnl |} ];
             equity := equity st;
             position := None;
             current_balance := current_balance st + net_pnl |}
      | SHORT => st
      end
  | None => st
  end.

(** Lines 184-203: open a short at the next bar's open when the slot is empty. *)
Definition open_short (next_bar : Row) (i : nat) (st : State) : State :=
  match position st with
  | None =>
      let entry_price := open (bar next_bar) in
      let fees := entry_price * 0.0001 * 1.0 in
      {| fills := fills st ++
           [ {| fill_timestamp := fromtimestamp (timestamp (bar next_bar));
                fill_instrument := "TEST.SIM";
                fill_side := SELL;
                fill_quantity := 1.0;
                fill_price := entry_price;
                fill_commission := fees |} ];
         positions := positions st;
         equity := equity st;
         position := Some {| pos_side := SHORT;
                             pos_entry_price := entry_price;
                             pos_entry_timestamp := timestamp (bar next_bar);
                             pos_entry_idx := i + 1 |};
         current_balance := current_balance st - fees |}
  | Some _ => st
  end.

(** The branch taken on a signal: close the opposite position, then open. *)
Definition act (s : Signal) (next_bar : Row) (i : nat) (st : State) : State :=
  match s with
  | BullishCross => open_long next_bar i (close_short next_bar st)
  | BearishCross => open_short next_bar i (close_long next_bar st)
  | NoSignal => st
  end.

(** Line 205: [equity.append(current_balance)]. *)
Definition append_equity (st : State) : State :=
  {| fills := fills st; positions := positions st;
     equity := equity st ++ [current_balance st];
     position := position st; current_balance := current_balance st |}.

(** One iteration of the loop (lines 78-205).  A [continue] leaves every
    local as it is and skips line 205 too. *)
Definition loop_body (prev_bar current_bar next_bar : Row) (i : nat) (st : State) : State :=
  if skipped prev_bar current_bar then st
  else append_equity (act (signal_of prev_bar current_bar) next_bar i st).

(* ------------------------------------------------------------------ *)
(** ** The pass over the bars (lines 77-229) *)

(** [df.iloc[i]] for [i >= 0]; [None] stands for the IndexError of an
    index out of range. *)
Definition iloc (df : list Row) (i : nat) : option Row := nth_error df i.

(** [range(a, b)], empty when [b <= a]. *)
Definition range (a b : nat) : list nat := seq a (b - a).

(** Lines 78-205 for one value of [i], with the three row lookups. *)
Definition iteration (df : list Row) (i : nat) (st : State) : option State :=
  match iloc df i, iloc df (i + 1), iloc df (i - 1) with
  | Some current_bar, Some next_bar, Some prev_bar =>
      Some (loop_body prev_bar current_bar next_bar i st)
  | _, _, _ => None
  end.

Fixpoint for_each (df : list Row) (idxs : list nat) (st : State) : option State :=
  match idxs with
  | [] => Some st
  | i :: rest =>
      match iteration df i st with
      | Some st' => for_each df rest st'
      | None => None
      end
  end.

(** The state once the first [k] iterations (bars 50 .. 50+k-1) are done. *)
Definition pass (df : list Row) (k : nat) : option State :=
  for_each df (seq 50 k) init_state.

(** The whole loop, [for i in range(50, len(df) - 1)]. *)
Definition run_loop (df : list Row) : option State :=
  for_each df (range 50 (length df - 1)) init_state.

(** Lines 208-229: the closure at the end of the stream, at the last bar's
    close.  Nothing is appended to [fills] or [equity], and the [position]
    variable is not assigned. *)
Definition close_at_end (df : list Row) (st : State) : option State :=
  match position st with
  | Some p =>
      match iloc df (length df - 1) with
      | Some last_bar =>
          let exit_price := close (bar last_bar) in
          let pnl :=
            match pos_side p with
            | LONG => (exit_price - pos_entry_price p) * 1.0
            | SHORT => (pos_entry_price p - exit_price) * 1.0
            end in
          let fees := exit_price * 0.0001 * 1.0 in
          let net_pnl := pnl - fees in
          Some {| fills := fills st;
                  positions := positions st ++
                    [ {| entry_time := fromtimestamp (pos_entry_timestamp p);
                         exit_time := fromtimestamp (timestamp (bar last_bar));
                         side := pos_side p;
                         quantity := 1.0;
                         entry_price := pos_entry_price p;
                         exit_price := exit_price;
                         pnl := net_pnl |} ];
                  equity := equity st;
                  position := position st;
                  current_balance := current_balance st + net_pnl |}
      | None => None
      end
  | None => Some st
  end.

(** Line 244: the timestamps of rows [50 .. 50 + len(equity) - 1]. *)
Fixpoint timestamps_at (df : list Row) (idxs : list nat) : option (list datetime) :=
  match idxs with
  | [] => Some []
  | i :: rest =>
      match iloc df i, timestamps_at df rest with
      | Some r, Some ts => Some (fromtimestamp (timestamp (bar r)) :: ts)
      | _, _ => None
      end
  end.

Definition equity_timestamps_of (df : list Row) (equity : list float) : option (list datetime) :=
  timestamps_at df (range 50 (50 + length equity)).

(** What the function leaves behind: the locals at its end and the
    timestamp column of [equity_curve.csv]. *)
Record Result := mkResult {
  final : State;
  equity_timestamps : list datetime
}.

(** The rows of [equity_curve.csv]. *)
Definition equity_curve (r : Result) : list (datetime * float) :=
  combine (equity_timestamps r) (equity (final r)).

(** The pass on a data frame that already has its indicator columns. *)
Definition simulate (df : list Row) : option Result :=
  match run_loop df with
  | Some st =>
      match close_at_end df st with
      | Some st' =>
          match equity_timestamps_of df (equity st') with
          | Some ts => Some {| final := st'; equity_timestamps := ts |}
          | None => None
          end
      | None => None
      end
  | None => None
  end.

Definition fallback_backtest_csv (bars : list Bar) : option Result :=
  simulate (with_indicators bars).

(* ------------------------------------------------------------------ *)
(** ** Files, statistics and the entry point *)

(** Lines 232-241: the two ledgers are saved only when they are not empty. *)
Definition saved_ledgers (st : State) : list string :=
  (match fills st with [] => [] | _ :: _ => ["backtest_fills.csv"%string] end)
  ++ (match positions st with [] => [] | _ :: _ => ["backtest_positions.csv"%string] end).

(** Lines 262-263: the trades counted as won and as lost. *)
Definition winning_trades (ps : list ClosedTrade) : nat :=
  length (filter (fun p => 0 <? pnl p) ps).

Definition losing_trades (ps : list ClosedTrade) : nat :=
  length (filter (fun p => pnl p <? 0) ps).

(** Lines 280-283: the drawdown series and its minimum. *)
Definition drawdown (equity : list float) : list float :=
  map (fun '(e, m) => (e - m) / m) (combine equity (Pandas.expanding_max equity)).

Definition max_drawdown (equity : list float) : float :=
  Pandas.min (drawdown equity).

(** [run_backtest] (lines 289-332).  [nautilus_available] is the module
    flag set by the import; [engine_configures] tells whether lines
    308-321 run without raising.  The result is the number of calls of
    [fallback_backtest_csv] and what the last of them gave; [None] is an
    exception that leaves [run_backtest].  A call that raises inside the
    [try] is caught by the [except], which calls the function again. *)
Definition run_backtest (nautilus_available engine_configures : bool)
           (bars : list Bar) : nat * option Result :=
  if negb nautilus_available then (1%nat, fallback_backtest_csv bars)
  else if engine_configures then
    match fallback_backtest_csv bars with
    | Some r => (1%nat, Some r)
    | None => (2%nat, fallback_backtest_csv bars)
    end
  else (1%nat, fallback_backtest_csv bars).

(** The exit status of the script (lines 335-343). *)
Definition exit_status (nautilus_available engine_configures : bool)
           (bars : list Bar) : Z :=
  match snd (run_backtest nautilus_available engine_configures bars) with
  | Some _ => 0%Z
  | None => 1%Z
  end.

(* ------------------------------------------------------------------ *)
(** ** The strategy class of [ma_cross_rsi_strategy.py] *)

Module Strategy.

Record MACrossRSIConfig := mkConfig {
  fast_ma_period : nat;
  slow_ma_period : nat;
  rsi_period : nat;
  rsi_oversold : float;
  rsi_overbought : float;
  trade_size : float
}.

Definition default_config : MACrossRSIConfig :=
  {| fast_ma_period := 20; slow_ma_period := 50; rsi_period := 14;
     rsi_oversold := 30; rsi_overbought := 70; trade_size := 1.0 |}.

(** What the portfolio answers to [is_flat], [is_net_long], [is_net_short]. *)
Inductive Exposure := IsFlat | IsNetLong | IsNetShort.

Inductive Command := Buy | Sell | CloseAllPositions.

(** The two fields [on_bar] keeps between bars. *)
Record Memory := mkMemory {
  previous_fast_ma : option float;
  previous_slow_ma : option float
}.

(** The conditions of lines 103-105 and 116-118. *)
Definition crossover (cfg : MACrossRSIConfig)
           (previous_fast previous_slow fast_ma_value slow_ma_value rsi_value : float) : Signal :=
  if (previous_fast <=? previous_slow) && (slow_ma_value <? fast_ma_value)
     && (rsi_value <? rsi_overbought cfg)
  then BullishCross
  else if (previous_slow <=? previous_fast) && (fast_ma_value <? slow_ma_value)
          && (rsi_oversold cfg <? rsi_value)
  then BearishCross
  else NoSignal.

(** [on_bar]: the orders sent and the memory kept. *)
Definition on_bar (cfg : MACrossRSIConfig) (indicators_initialized : bool)
           (fast_ma_value slow_ma_value rsi_value : float) (e : Exposure)
           (self : Memory) : list Command * Memory :=
  if negb indicators_initialized then ([], self)
  else
    let orders :=
      match previous_fast_ma self, previous_slow_ma self with
      | Some pf, Some ps =>
          match crossover cfg pf ps fast_ma_value slow_ma_value rsi_value with
          | BullishCross =>
              match e with
              | IsFlat => [Buy]
              | IsNetShort => [CloseAllPositions; Buy]
              | IsNetLong => []
              end
          | BearishCross =>
              match e with
              | IsFlat => [Sell]
              | IsNetLong => [CloseAllPositions; Sell]
              | IsNetShort => []
              end
          | NoSignal => []
          end
      | _, _ => []
      end in
    (orders, {| previous_fast_ma := Some fast_ma_value;
                previous_slow_ma := Some slow_ma_value |}).

(** [on_reset]: the memory is cleared. *)
Definition on_reset (self : Memory) : Memory :=
  {| previous_fast_ma := None; previous_slow_ma := None |}.

(** [indicators_initialized] over the three indicator flags. *)
Definition indicators_initialized (fast_ma_ready slow_ma_ready rsi_ready : bool) : bool :=
  fast_ma_ready && slow_ma_ready && rsi_ready.

End Strategy.

(* ------------------------------------------------------------------ *)
(** ** Vocabulary of the statements *)

(** Whether iteration [i] leaves through one of the [continue]s. *)
Definition bar_skipped (df : list Row) (i : nat) : bool :=
  match iloc df (i - 1), iloc df i with
  | Some prev_bar, Some current_bar => skipped prev_bar current_bar
  | _, _ => false
  end.

(** The bars of the range that reach line 96, in order. *)
Definition evaluated_bars (df : list Row) (k : nat) : list nat :=
  filter (fun i => negb (bar_skipped df i)) (seq 50 k).

(** Bar [i] is in [range(50, len(df) - 1)], passes both NaN guards and is
    classified as [s]. *)
Definition signal_at (df : list Row) (i : nat) (s : Signal) : Prop :=
  50 <= i /\ i + 1 < length df /\
  exists prev_bar current_bar,
    iloc df (i - 1) = Some prev_bar /\ iloc df i = Some current_bar /\
    skipped prev_bar current_bar = false /\
    signal_of prev_bar current_bar = s.

(** [price] and [time] are the open and the timestamp of bar [i + 1]. *)
Definition executed_after (df : list Row) (i : nat) (price : float) (time : datetime) : Prop :=
  exists next_bar,
    iloc df (i + 1) = Some next_bar /\
    price = open (bar next_bar) /\
    time = fromtimestamp (timestamp (bar next_bar)).

Definition order_of (s : Signal) : option OrderSide :=
  match s with
  | BullishCross => Some BUY
  | BearishCross => Some SELL
  | NoSignal => None
  end.

Definition entry_signal (sd : Side) : Signal :=
  match sd with LONG => BullishCross | SHORT => BearishCross end.

Definition exit_signal (sd : Side) : Signal :=
  match sd with LONG => BearishCross | SHORT => BullishCross end.

(** A fill priced and stamped at the bar after the bar of its signal. *)
Definition fill_lags (df : list Row) (f : Fill) : Prop :=
  exists i s,
    signal_at df i s /\ order_of s = Some (fill_side f) /\
    executed_after df i (fill_price f) (fill_timestamp f).

(** A trade entered after the bar of its entry signal and left after the
    bar of a later, opposite signal. *)
Definition trade_lags (df : list Row) (t : ClosedTrade) : Prop :=
  exists j i,
    j < i /\
    signal_at df j (entry_signal (side t)) /\
    executed_after df j (entry_price t) (entry_time t) /\
    signal_at df i (exit_signal (side t)) /\
    executed_after df i (exit_price t) (exit_time t).

(** A trade entered after the bar of its entry signal and left at the
    close of the last bar. *)
Definition trade_closed_at_end (df : list Row) (t : ClosedTrade) : Prop :=
  exists j last_bar,
    signal_at df j (entry_signal (side t)) /\
    executed_after df j (entry_price t) (entry_time t) /\
    iloc df (length df - 1) = Some last_bar /\
    exit_price t = close (bar last_bar) /\
    exit_time t = fromtimestamp (timestamp (bar last_bar)).

(** The open position was entered after a signal bar before bar [50 + k]. *)
Definition position_lags (df : list Row) (k : nat) (p : Position) : Prop :=
  exists j,
    j < 50 + k /\
    signal_at df j (entry_signal (pos_side p)) /\
    executed_after df j (pos_entry_price p) (fromtimestamp (pos_entry_timestamp p)) /\
    pos_entry_idx p = (j + 1)%nat.

(** Every ledger entry, and the open position, lags its signal. *)
Definition lagging (df : list Row) (k : nat) (st : State) : Prop :=
  Forall (fill_lags df) (fills st) /\
  Forall (trade_lags df) (positions st) /\
  forall p, position st = Some p -> position_lags df k p.

(** The trade record carries the entry of the position [p]. *)
Definition closes (p : Position) (t : ClosedTrade) : Prop :=
  entry_time t = fromtimestamp (pos_entry_timestamp p) /\
  side t = pos_side p /\
  entry_price t = pos_entry_price p.

(** Price difference in the direction of the trade, times the quantity. *)
Definition gross_pnl (t : ClosedTrade) : float :=
  match side t with
  | LONG => (exit_price t - entry_price t) * quantity t
  | SHORT => (entry_price t - exit_price t) * quantity t
  end.

(** The fee of one action: price times the fee rate times the quantity. *)
Definition fee (price qty : float) : float := price * 0.0001 * qty.

(** The pnl as the specification words it: net of the entry fee and of the
    exit fee. *)
Definition pnl_net_of_both_fees (t : ClosedTrade) : float :=
  gross_pnl t - fee (entry_price t) (quantity t) - fee (exit_price t) (quantity t).

(** The pnl net of the exit fee alone. *)
Definition pnl_net_of_exit_fee (t : ClosedTrade) : float :=
  gross_pnl t - fee (exit_price t) (quantity t).

Definition within_tolerance (a b : float) : bool := abs (a - b) <=? 1e-9.

(** 1 when the position slot is occupied, 0 when it is empty. *)
Definition open_positions (st : State) : nat :=
  match position st with Some _ => 1 | None => 0 end.

(** The signal reverses the side of the position held. *)
Definition reverses (s : Signal) (sd : Side) : Prop := s = exit_signal sd.

(** The dict appended to [fills] by an order executed at [next_bar]. *)
Definition market_fill (o : OrderSide) (next_bar : Row) : Fill :=
  {| fill_timestamp := fromtimestamp (timestamp (bar next_bar));
     fill_instrument := "TEST.SIM";
     fill_side := o;
     fill_quantity := 1.0;
     fill_price := open (bar next_bar);
     fill_commission := open (bar next_bar) * 0.0001 * 1.0 |}.

(** The [net_pnl] of leaving [p] at [price]. *)
Definition net_pnl_of (p : Position) (price : float) : float :=
  match pos_side p with
  | LONG => (price - pos_entry_price p) * 1.0
  | SHORT => (pos_entry_price p - price) * 1.0
  end - price * 0.0001 * 1.0.

(** The dict appended to [positions] when [p] is left at [price], [time]. *)
Definition closed_trade (p : Position) (price : float) (time : datetime) : ClosedTrade :=
  {| entry_time := fromtimestamp (pos_entry_timestamp p);
     exit_time := time;
     side := pos_side p;
     quantity := 1.0;
     entry_price := pos_entry_price p;
     exit_price := price;
     pnl := net_pnl_of p price |}.

(** The [position] dict assigned when a position is entered at [next_bar]. *)
Definition entered (sd : Side) (next_bar : Row) (i : nat) : Position :=
  {| pos_side := sd;
     pos_entry_price := open (bar next_bar);
     pos_entry_timestamp := timestamp (bar next_bar);
     pos_entry_idx := i + 1 |}.

Definition order_side (s : Signal) : OrderSide :=
  match s with BearishCross => SELL | _ => BUY end.

(** The four ways a signal meets the position slot. *)
Inductive Meeting (s : Signal) (st : State) : Prop :=
| meet_nothing : s = NoSignal -> Meeting s st
| meet_flat sd : position st = None -> s = entry_signal sd -> Meeting s st
| meet_same p : position st = Some p -> s = entry_signal (pos_side p) -> Meeting s st
| meet_opposite p : position st = Some p -> s = exit_signal (pos_side p) -> Meeting s st.

(** The closed trade is of unit quantity and its [pnl] is the price
    difference in its direction less the fee of the exit. *)
Definition records_exit_fee_only (t : ClosedTrade) : Prop :=
  quantity t = 1.0 /\ pnl t = pnl_net_of_exit_fee t.

(** The ledgers count one fill per entry and per exit before the end of
    the stream, and one closed trade per exit. *)
Definition ledgers_balanced (st : State) : Prop :=
  length (fills st) = (2 * length (positions st) + open_positions st)%nat.


(** Nothing has been traded and the balance is the starting one. *)
Definition quiet (st : State) : Prop :=
  fills st = [] /\ positions st = [] /\ position st = None /\
  current_balance st = starting_balance /\
  Forall (fun e => e = starting_balance) (equity st).

(** Some equity point of the first [k] iterations sits beside the timestamp
    of another bar than the one after its own bar: the point appended by
    the [j]-th evaluated bar [e] is entry [j + 1] of the list and is written
    beside the timestamp of row [50 + (j + 1)]. *)
Definition misaligned (df : list Row) (k : nat) : Prop :=
  exists j e,
    nth_error (evaluated_bars df k) j = Some e /\ (50 + S j <> e + 1)%nat.

(** What the portfolio of the strategy class would answer for the slot. *)
Definition exposure_of (st : State) : Strategy.Exposure :=
  match position st with
  | None => Strategy.IsFlat
  | Some p =>
      match pos_side p with
      | LONG => Strategy.IsNetLong
      | SHORT => Strategy.IsNetShort
      end
  end.

(** The trade [t2] is entered where and when [t1] is left, on the other
    side. *)
Definition links (t1 t2 : ClosedTrade) : Prop :=
  entry_price t2 = exit_price t1 /\ entry_time t2 = exit_time t1 /\
  side t2 <> side t1.

(** Every two neighbours of the list are linked. *)
Definition chained (ts : list ClosedTrade) : Prop :=
  forall i t1 t2,
    nth_error ts i = Some t1 -> nth_error ts (S i) = Some t2 -> links t1 t2.

(** The last entry of the list, if any. *)
Definition last_trade (ts : list ClosedTrade) : option ClosedTrade :=
  nth_error ts (length ts - 1).

(** The open position is entered where and when the last closed trade, if
    any, is left, on the other side. *)
Definition follows_last (ts : list ClosedTrade) (slot : option Position) : Prop :=
  forall t, last_trade ts = Some t ->
    exists p, slot = Some p /\
      pos_entry_price p = exit_price t /\
      fromtimestamp (pos_entry_timestamp p) = exit_time t /\
      pos_side p <> side t.

(** The row indices of the list never go back. *)
Definition ascending (idx : list nat) : Prop :=
  forall i j x y,
    (i <= j)%nat -> nth_error idx i = Some x -> nth_error idx j = Some y ->
    (x <= y)%nat.

(** [t] is the time read from row [a] of the frame. *)
Definition time_of_row (df : list Row) (a : nat) (t : datetime) : Prop :=
  exists row, iloc df a = Some row /\ t = fromtimestamp (timestamp (bar row)).

(** The times of the list are read from rows of the frame taken in the
    order of the file (a row may be taken more than once), none of them
    after row [bound]. *)
Definition in_row_order (df : list Row) (bound : nat) (ts : list datetime) : Prop :=
  exists idx,
    Forall2 (time_of_row df) idx ts /\ ascending idx /\
    Forall (fun a => (a <= bound)%nat) idx.

(** The same without the bound. *)
Definition in_file_order (df : list Row) (ts : list datetime) : Prop :=
  exists idx, Forall2 (time_of_row df) idx ts /\ ascending idx.

(** The trade is entered on a row of the frame and left on that row or on a
    later one. *)
Definition entered_before_left (df : list Row) (t : ClosedTrade) : Prop :=
  exists a b,
    (a <= b)%nat /\ time_of_row df a (entry_time t) /\
    time_of_row df b (exit_time t).

(** The ledgers follow the rows of the file and are never ahead of row
    [bound]. *)
Definition in_bar_order (df : list Row) (bound : nat) (st : State) : Prop :=
  in_row_order df bound (map fill_timestamp (fills st)) /\
  in_row_order df bound (map exit_time (positions st)) /\
  Forall (entered_before_left df) (positions st) /\
  forall p, position st = Some p ->
    exists a, (a <= bound)%nat /\
              time_of_row df a (fromtimestamp (pos_entry_timestamp p)).

(** The order closes the positions of the instrument. *)
Definition is_close (c : Strategy.Command) : bool :=
  match c with Strategy.CloseAllPositions => true | _ => false end.

(** The memory of the strategy after a bar with the given averages. *)
Definition remembering (fast slow : float) : Strategy.Memory :=
  {| Strategy.previous_fast_ma := Some fast;
     Strategy.previous_slow_ma := Some slow |}.

(** The trades counted neither as won nor as lost. *)
Definition undecided_trades (ps : list ClosedTrade) : nat :=
  length (filter (fun p => negb (0 <? pnl p) && negb (pnl p <? 0)) ps).

(** The balance replayed from the ledgers, in the order of the script:
    after the first fill, which enters the first position, each closed
    trade adds its pnl and, unless it is the closure at the end of the
    stream, is followed by two fills, of which the second enters the next
    position and costs its commission. *)
Fixpoint replay (b : float) (ts : list ClosedTrade) (fs : list Fill) : float :=
  match ts with
  | [] => b
  | t :: ts' =>
      match fs with
      | _ :: fo :: fs' => replay (b + pnl t - fill_commission fo) ts' fs'
      | _ => b + pnl t
      end
  end.

Definition balance_from_ledgers (fs : list Fill) (ts : list ClosedTrade) : float :=
  match fs with
  | [] => starting_balance
  | f0 :: rest => replay (starting_balance - fill_commission f0) ts rest
  end.

(** The balance of the state is what its ledgers replay to. *)
Definition accounted (st : State) : Prop :=
  match position st with
  | None =>
      fills st = [] /\ positions st = [] /\ current_balance st = starting_balance
  | Some _ =>
      exists f0 rest,
        fills st = f0 :: rest /\
        length rest = (2 * length (positions st))%nat /\
        current_balance st =
          replay (starting_balance - fill_commission f0) (positions st) rest
  end.

(** A fill of one unit of the test instrument, its commission being its
    price times the fee rate times its quantity. *)
Definition unit_fill (f : Fill) : Prop :=
  fill_quantity f = 1.0 /\ fill_instrument f = "TEST.SIM"%string /\
  fill_commission f = fee (fill_price f) (fill_quantity f).


(* ------------------------------------------------------------------ *)
(** ** Synthetic bar streams *)

Definition float_of_Z (z : Z) : float :=
  if (z <? 0)%Z then - of_uint63 (Uint63.of_Z (- z)) else of_uint63 (Uint63.of_Z z).

(** A bar at minute [i] with the given close, opening half a point above. *)
Definition bar_with_close (i : nat) (c : float) : Bar :=
  {| timestamp := 1700000000 + 60 * Z.of_nat i;
     open := c + 0.5; high := c + 3; low := c - 3; close := c;
     volume := 1000 |}.

(** A falling, then rising, then falling trend under a two-point zigzag:
    the fast average crosses above the slow one at bar 73 and below it at
    bar 123, with the RSI near 62 and near 38. *)
Definition zigzag_close (i : nat) : float :=
  let z := Z.of_nat i in
  let trend :=
    if (z <? 50)%Z then (200 - z)%Z
    else if (z <? 100)%Z then (100 + z)%Z
    else (300 - z)%Z in
  float_of_Z (trend + (if Z.even z then 2 else -2))%Z.

Definition zigzag_bars (n : nat) : list Bar :=
  map (fun i => bar_with_close i (zigzag_close i)) (seq 0 n).

(** The same stream with the close of bar [j] missing. *)
Definition zigzag_bars_missing (j n : nat) : list Bar :=
  map (fun i => bar_with_close i (if (i =? j)%nat then nan else zigzag_close i)) (seq 0 n).

(** [n] bars that all close at [c]. *)
Definition flat_bars (c : float) (n : nat) : list Bar :=
  map (fun i => bar_with_close i c) (seq 0 n).

(** The data frame of the zigzag stream of 160 bars. *)
Definition zigzag_df : list Row := with_indicators (zigzag_bars 160).


(** Sixty bars with the close of bar 58, the last bar of the range, missing. *)
Definition tail_gap_df : list Row := with_indicators (zigzag_bars_missing 58 60).

(* ------------------------------------------------------------------ *)
(** ** Order of binary64 values *)

Lemma SFcompare_swap (x y : spec_float) :
  SFcompare y x = option_map CompOpp (SFcompare x y).
Proof.
  destruct x as [sx | sx | | sx mx ex], y as [sy | sy | | sy my ey];
    simpl; try reflexivity;
    try (destruct sx; reflexivity); try (destruct sy; reflexivity);
    try (destruct sx, sy; reflexivity).
  pose proof (Pos.compare_cont_antisym mx my Eq) as HP. simpl in HP.
  destruct sx, sy; simpl; try reflexivity;
    rewrite (Z.compare_antisym ex ey);
    destruct (ex ?= ey)%Z; simpl; try reflexivity;
    rewrite <- HP; try rewrite CompOpp_involutive; reflexivity.
Qed.

Lemma ltb_swap_false (a b : float) : (a <? b) = true -> (b <? a) = false.
Proof.
  rewrite !ltb_spec. unfold SFltb.
  rewrite (SFcompare_swap (Prim2SF a) (Prim2SF b)).
  destruct (SFcompare (Prim2SF a) (Prim2SF b)) as [[]|]; simpl; congruence.
Qed.


Lemma eqb_leb (a b : float) :
  (a =? b) = true -> (a <=? b) = true /\ (b <=? a) = true.
Proof.
  rewrite eqb_spec, !leb_spec. unfold SFeqb, SFleb.
  rewrite (SFcompare_swap (Prim2SF a) (Prim2SF b)).
  destruct (SFcompare (Prim2SF a) (Prim2SF b)) as [[]|]; simpl;
    intuition congruence.
Qed.

Lemma eqb_ltb_false (a b : float) :
  (a =? b) = true -> (a <? b) = false /\ (b <? a) = false.
Proof.
  rewrite eqb_spec, !ltb_spec. unfold SFeqb, SFltb.
  rewrite (SFcompare_swap (Prim2SF a) (Prim2SF b)).
  destruct (SFcompare (Prim2SF a) (Prim2SF b)) as [[]|]; simpl;
    intuition congruence.
Qed.

Lemma buy_excludes_sell (pf ps f s r : float) :
  buy_signal pf ps f s r = true -> sell_signal pf ps f s r = false.
Proof.
  unfold buy_signal, sell_signal. intros H.
  apply andb_true_iff in H as [H _]. apply andb_true_iff in H as [_ H].
  rewrite (ltb_swap_false _ _ H), andb_false_r. reflexivity.
Qed.

Lemma buy_signal_iff (pf ps f s r : float) :
  buy_signal pf ps f s r = true <->
  (pf <=? ps) = true /\ (s <? f) = true /\ (r <? 70) = true.
Proof. unfold buy_signal. rewrite !andb_true_iff. tauto. Qed.

Lemma sell_signal_iff (pf ps f s r : float) :
  sell_signal pf ps f s r = true <->
  (ps <=? pf) = true /\ (f <? s) = true /\ (30 <? r) = true.
Proof. unfold sell_signal. rewrite !andb_true_iff. tauto. Qed.

Lemma strategy_crossover_default (pf ps f s r : float) :
  Strategy.crossover Strategy.default_config pf ps f s r = classify pf ps f s r.
Proof. reflexivity. Qed.

(** [on_bar] sends orders only on a crossing, and never before the
    indicators are initialised or before a previous bar is remembered. *)
Lemma on_bar_orders (cfg : Strategy.MACrossRSIConfig) (init : bool)
      (f s r : float) (e : Strategy.Exposure) (self : Strategy.Memory) :
  fst (Strategy.on_bar cfg init f s r e self) <> [] ->
  init = true /\
  exists pf ps,
    Strategy.previous_fast_ma self = Some pf /\
    Strategy.previous_slow_ma self = Some ps /\
    Strategy.crossover cfg pf ps f s r <> NoSignal.
Proof.
  unfold Strategy.on_bar. destruct init; cbn [negb fst]; [| congruence].
  intros H. split; [reflexivity |].
  destruct (Strategy.previous_fast_ma self) as [pf |]; [| congruence].
  destruct (Strategy.previous_slow_ma self) as [ps |]; [| congruence].
  exists pf, ps. split; [reflexivity |]. split; [reflexivity |].
  destruct (Strategy.crossover cfg pf ps f s r); congruence.
Qed.

(** C3.  The detector answers BullishCross exactly when the previous fast
    average is at or below the previous slow one, the current fast average
    is above the current slow one and the RSI is below 70; BearishCross
    exactly when the previous fast average is at or above the previous slow
    one, the current fast average is below the current slow one and the
    RSI is above 30; and no signal in every other case.  Equal previous
    averages satisfy both previous-bar comparisons, and equal current
    averages give no signal.  The strategy class applies the same rule
    under its default thresholds. *)
Theorem crossover_classification (pf ps f s r : float) :
  (classify pf ps f s r = BullishCross <->
     (pf <=? ps) = true /\ (s <? f) = true /\ (r <? 70) = true) /\
  (classify pf ps f s r = BearishCross <->
     (ps <=? pf) = true /\ (f <? s) = true /\ (30 <? r) = true) /\
  (classify pf ps f s r = NoSignal <->
     ~ ((pf <=? ps) = true /\ (s <? f) = true /\ (r <? 70) = true) /\
     ~ ((ps <=? pf) = true /\ (f <? s) = true /\ (30 <? r) = true)) /\
  ((pf =? ps) = true -> (pf <=? ps) = true /\ (ps <=? pf) = true) /\
  ((f =? s) = true -> classify pf ps f s r = NoSignal) /\
  Strategy.crossover Strategy.default_config pf ps f s r = classify pf ps f s r.
Proof.
  pose proof (buy_signal_iff pf ps f s r) as Hb.
  pose proof (sell_signal_iff pf ps f s r) as Hs.
  pose proof (buy_excludes_sell pf ps f s r) as Hx.
  rewrite <- Hb, <- Hs. unfold classify.
  split; [| split; [| split; [| split; [| split]]]].
  - destruct (buy_signal pf ps f s r); [tauto |].
    destruct (sell_signal pf ps f s r); split; congruence.
  - destruct (buy_signal pf ps f s r).
    + rewrite Hx by reflexivity. split; congruence.
    + destruct (sell_signal pf ps f s r); split; congruence.
  - destruct (buy_signal pf ps f s r).
    + split; [congruence | intros [H _]; elim H; reflexivity].
    + destruct (sell_signal pf ps f s r).
      * split; [congruence | intros [_ H]; elim H; reflexivity].
      * split; [intros _; split; congruence | reflexivity].
  - apply eqb_leb.
  - intros E. apply eqb_ltb_false in E as [E1 E2].
    unfold buy_signal, sell_signal. rewrite E1, E2, !andb_false_r.
    reflexivity.
  - reflexivity.
Qed.

(* ------------------------------------------------------------------ *)
(** ** The loop, iteration by iteration *)

Local Close Scope float_scope.

Lemma iloc_length (df : list Row) (i : nat) (r : Row) :
  iloc df i = Some r -> i < length df.
Proof. intros H. apply nth_error_Some. unfold iloc in H. congruence. Qed.

Lemma iloc_in_range (df : list Row) (i : nat) :
  i < length df -> exists r, iloc df i = Some r.
Proof.
  intros H. unfold iloc. destruct (nth_error df i) eqn:E; [eauto |].
  apply nth_error_None in E. lia.
Qed.

Lemma iteration_inv (df : list Row) (i : nat) (st st' : State) :
  iteration df i st = Some st' ->
  exists prev_bar current_bar next_bar,
    iloc df (i - 1) = Some prev_bar /\ iloc df i = Some current_bar /\
    iloc df (i + 1) = Some next_bar /\
    st' = loop_body prev_bar current_bar next_bar i st.
Proof.
  unfold iteration. intros H.
  destruct (iloc df i) as [c |]; [| discriminate].
  destruct (iloc df (i + 1)) as [n |]; [| discriminate].
  destruct (iloc df (i - 1)) as [p |]; [| discriminate].
  injection H as <-. eauto 7.
Qed.


Lemma for_each_app (df : list Row) (l1 l2 : list nat) (st : State) :
  for_each df (l1 ++ l2) st =
  match for_each df l1 st with
  | Some st' => for_each df l2 st'
  | None => None
  end.
Proof.
  revert st. induction l1 as [| i l1 IH]; intros st; simpl; [reflexivity |].
  destruct (iteration df i st); [apply IH | reflexivity].
Qed.

Lemma pass_S (df : list Row) (k : nat) :
  pass df (S k) =
  match pass df k with
  | Some st => iteration df (50 + k) st
  | None => None
  end.
Proof.
  unfold pass. rewrite seq_S, for_each_app.
  destruct (for_each df (seq 50 k) init_state); [| reflexivity].
  cbn [for_each]. destruct (iteration df (50 + k) s); reflexivity.
Qed.

Lemma pass_S_inv (df : list Row) (k : nat) (st' : State) :
  pass df (S k) = Some st' ->
  exists st, pass df k = Some st /\ iteration df (50 + k) st = Some st'.
Proof.
  rewrite pass_S. destruct (pass df k) as [st |]; [eauto | discriminate].
Qed.

Lemma pass_add (df : list Row) (k m : nat) :
  pass df (k + m) =
  match pass df k with
  | Some st => for_each df (seq (50 + k) m) st
  | None => None
  end.
Proof. unfold pass. rewrite seq_app, for_each_app. reflexivity. Qed.


Lemma run_loop_pass (df : list Row) :
  run_loop df = pass df (length df - 1 - 50).
Proof. reflexivity. Qed.


(** Induction along the pass. *)
Lemma pass_ind (df : list Row) (P : nat -> State -> Prop) :
  P 0 init_state ->
  (forall k st st',
      pass df k = Some st -> P k st ->
      iteration df (50 + k) st = Some st' -> P (S k) st') ->
  forall k st, pass df k = Some st -> P k st.
Proof.
  intros H0 HS. induction k as [| k IH]; intros st Hp.
  - injection Hp as <-. exact H0.
  - apply pass_S_inv in Hp as (st0 & Hp0 & Hit). eauto.
Qed.

(** *** What one signal does to the locals *)

Lemma meeting (s : Signal) (st : State) : Meeting s st.
Proof.
  destruct s.
  - apply meet_nothing. reflexivity.
  - destruct (position st) as [p |] eqn:E.
    + destruct (pos_side p) eqn:Sd.
      * apply (meet_same _ _ p); [exact E | rewrite Sd; reflexivity].
      * apply (meet_opposite _ _ p); [exact E | rewrite Sd; reflexivity].
    + apply (meet_flat _ _ LONG); [exact E | reflexivity].
  - destruct (position st) as [p |] eqn:E.
    + destruct (pos_side p) eqn:Sd.
      * apply (meet_opposite _ _ p); [exact E | rewrite Sd; reflexivity].
      * apply (meet_same _ _ p); [exact E | rewrite Sd; reflexivity].
    + apply (meet_flat _ _ SHORT); [exact E | reflexivity].
Qed.

Lemma act_nothing (n : Row) (i : nat) (st : State) : act NoSignal n i st = st.
Proof. reflexivity. Qed.

(** Flat: one fill, the slot is taken, the entry fee leaves the balance. *)
Lemma act_flat (sd : Side) (n : Row) (i : nat) (st : State) :
  position st = None ->
  act (entry_signal sd) n i st =
  {| fills := fills st ++ [market_fill (order_side (entry_signal sd)) n];
     positions := positions st;
     equity := equity st;
     position := Some (entered sd n i);
     current_balance := (current_balance st - open (bar n) * 0.0001 * 1.0)%float |}.
Proof.
  intros E. destruct sd; unfold act, close_short, close_long; rewrite E;
    [unfold open_long | unfold open_short]; rewrite E; reflexivity.
Qed.

(** Already on the side of the signal: nothing happens. *)
Lemma act_same (p : Position) (n : Row) (i : nat) (st : State) :
  position st = Some p ->
  act (entry_signal (pos_side p)) n i st = st.
Proof.
  intros E. destruct (pos_side p) eqn:Sd; unfold act, close_short, close_long;
    rewrite E, Sd; [unfold open_long | unfold open_short]; rewrite E;
    reflexivity.
Qed.

(** On the other side: a closing fill and a closed trade, then an opening
    fill, both at the next bar. *)
Lemma act_opposite (p : Position) (n : Row) (i : nat) (st : State) :
  position st = Some p ->
  act (exit_signal (pos_side p)) n i st =
  {| fills := (fills st ++ [market_fill (order_side (exit_signal (pos_side p))) n])
                ++ [market_fill (order_side (exit_signal (pos_side p))) n];
     positions := positions st ++
       [closed_trade p (open (bar n)) (fromtimestamp (timestamp (bar n)))];
     equity := equity st;
     position := Some (entered (match pos_side p with LONG => SHORT | SHORT => LONG end) n i);
     current_balance :=
       (current_balance st + net_pnl_of p (open (bar n))
        - open (bar n) * 0.0001 * 1.0)%float |}.
Proof.
  intros E. unfold closed_trade, net_pnl_of.
  destruct (pos_side p) eqn:Sd; unfold act, close_short, close_long;
    rewrite E, Sd; [unfold open_short | unfold open_long]; reflexivity.
Qed.

Lemma append_equity_fills (st : State) : fills (append_equity st) = fills st.
Proof. reflexivity. Qed.

Lemma append_equity_positions (st : State) :
  positions (append_equity st) = positions st.
Proof. reflexivity. Qed.

Lemma append_equity_position (st : State) :
  position (append_equity st) = position st.
Proof. reflexivity. Qed.

Lemma act_equity (s : Signal) (n : Row) (i : nat) (st : State) :
  equity (act s n i st) = equity st.
Proof.
  destruct (meeting s st) as [-> | sd E -> | p E -> | p E ->].
  - reflexivity.
  - rewrite act_flat by exact E. reflexivity.
  - rewrite act_same by exact E. reflexivity.
  - rewrite act_opposite by exact E. reflexivity.
Qed.

Lemma bar_skipped_rows (df : list Row) (i : nat) (p c : Row) :
  iloc df (i - 1) = Some p -> iloc df i = Some c ->
  bar_skipped df i = skipped p c.
Proof. unfold bar_skipped. intros -> ->. reflexivity. Qed.

Lemma signal_at_rows (df : list Row) (i : nat) (p c n : Row) :
  50 <= i ->
  iloc df (i - 1) = Some p -> iloc df i = Some c -> iloc df (i + 1) = Some n ->
  skipped p c = false ->
  signal_at df i (signal_of p c).
Proof.
  intros Hi Hp Hc Hn Hs. split; [exact Hi |]. split.
  - apply iloc_length in Hn. exact Hn.
  - exists p, c. auto.
Qed.

Lemma executed_after_row (df : list Row) (i : nat) (n : Row) :
  iloc df (i + 1) = Some n ->
  executed_after df i (open (bar n)) (fromtimestamp (timestamp (bar n))).
Proof. intros Hn. exists n. auto. Qed.

(** One iteration either leaves through a [continue] or acts on the
    signal of its bar and appends one equity point. *)
Lemma iteration_cases (df : list Row) (i : nat) (st st' : State) :
  50 <= i -> iteration df i st = Some st' ->
  exists n,
    iloc df (i + 1) = Some n /\
    ((bar_skipped df i = true /\ st' = st) \/
     (bar_skipped df i = false /\
      exists s, signal_at df i s /\ st' = append_equity (act s n i st))).
Proof.
  intros Hi H. apply iteration_inv in H as (p & c & n & Hp & Hc & Hn & ->).
  exists n. split; [exact Hn |].
  rewrite (bar_skipped_rows df i p c Hp Hc). unfold loop_body.
  destruct (skipped p c) eqn:Sk; [left; auto | right].
  split; [reflexivity |]. exists (signal_of p c). split; [| reflexivity].
  apply (signal_at_rows df i p c n); assumption.
Qed.

(** *** The end of the stream *)

Lemma close_at_end_flat (df : list Row) (st : State) :
  position st = None -> close_at_end df st = Some st.
Proof. unfold close_at_end. intros ->. reflexivity. Qed.

Lemma close_at_end_open (df : list Row) (st st' : State) (p : Position) :
  position st = Some p -> close_at_end df st = Some st' ->
  exists last_bar,
    iloc df (length df - 1) = Some last_bar /\
    st' =
    {| fills := fills st;
       positions := positions st ++
         [closed_trade p (close (bar last_bar))
                       (fromtimestamp (timestamp (bar last_bar)))];
       equity := equity st;
       position := Some p;
       current_balance :=
         (current_balance st + net_pnl_of p (close (bar last_bar)))%float |}.
Proof.
  unfold close_at_end. intros E. rewrite E.
  destruct (iloc df (length df - 1)) as [l |]; [| discriminate].
  intros H. injection H as <-. exists l. split; [reflexivity |].
  unfold closed_trade, net_pnl_of. destruct (pos_side p); reflexivity.
Qed.

Lemma simulate_inv (df : list Row) (r : Result) :
  simulate df = Some r ->
  exists st,
    run_loop df = Some st /\ close_at_end df st = Some (final r) /\
    equity_timestamps_of df (equity (final r)) = Some (equity_timestamps r).
Proof.
  unfold simulate. intros H.
  destruct (run_loop df) as [st |]; [| discriminate].
  destruct (close_at_end df st) as [st' |] eqn:C; [| discriminate].
  destruct (equity_timestamps_of df (equity st')) as [ts |] eqn:T; [| discriminate].
  injection H as <-. exists st. auto.
Qed.

(* ------------------------------------------------------------------ *)
(** ** Execution lags the signal *)


Lemma position_lags_later (df : list Row) (k : nat) (p : Position) :
  position_lags df k p -> position_lags df (S k) p.
Proof. intros (j & Hj & H). exists j. split; [lia | exact H]. Qed.

Lemma order_of_entry (sd : Side) :
  order_of (entry_signal sd) = Some (order_side (entry_signal sd)).
Proof. destruct sd; reflexivity. Qed.

Lemma order_of_exit (sd : Side) :
  order_of (exit_signal sd) = Some (order_side (exit_signal sd)).
Proof. destruct sd; reflexivity. Qed.

Lemma entry_of_other (sd : Side) :
  entry_signal (match sd with LONG => SHORT | SHORT => LONG end) = exit_signal sd.
Proof. destruct sd; reflexivity. Qed.

Lemma market_fill_lags (df : list Row) (i : nat) (s : Signal) (n : Row) :
  signal_at df i s -> order_of s = Some (order_side s) ->
  iloc df (i + 1) = Some n ->
  fill_lags df (market_fill (order_side s) n).
Proof.
  intros Hs Ho Hn. exists i, s. split; [exact Hs |]. split; [exact Ho |].
  apply executed_after_row. exact Hn.
Qed.

Lemma entered_lags (df : list Row) (k : nat) (sd : Side) (n : Row) :
  signal_at df (50 + k) (entry_signal sd) ->
  iloc df (50 + k + 1) = Some n ->
  position_lags df (S k) (entered sd n (50 + k)).
Proof.
  intros Hs Hn. exists (50 + k). split; [lia |]. split; [exact Hs |].
  split; [apply executed_after_row; exact Hn | reflexivity].
Qed.

Lemma lagging_step (df : list Row) (k : nat) (st st' : State) :
  lagging df k st -> iteration df (50 + k) st = Some st' ->
  lagging df (S k) st'.
Proof.
  intros (Hf & Ht & Hp) Hit.
  apply iteration_cases in Hit as (n & Hn & [[_ ->] | [_ (s & Hs & ->)]]); [| | lia].
  - split; [exact Hf |]. split; [exact Ht |].
    intros p E. apply position_lags_later, Hp, E.
  - unfold lagging.
    rewrite append_equity_fills, append_equity_positions, append_equity_position.
    destruct (meeting s st) as [-> | sd E -> | p E -> | p E ->].
    + rewrite act_nothing. split; [exact Hf |]. split; [exact Ht |].
      intros p E. apply position_lags_later, Hp, E.
    + rewrite act_flat by exact E. cbn [fills positions position].
      split; [| split; [exact Ht |]].
      * apply Forall_app. split; [exact Hf |]. constructor; [| constructor].
        apply (market_fill_lags df (50 + k)); auto using order_of_entry.
      * intros p Ep. injection Ep as <-. apply entered_lags; assumption.
    + rewrite act_same by exact E. split; [exact Hf |]. split; [exact Ht |].
      intros q Eq. apply position_lags_later, Hp, Eq.
    + rewrite act_opposite by exact E. cbn [fills positions position].
      assert (Hm : fill_lags df (market_fill (order_side (exit_signal (pos_side p))) n))
        by (apply (market_fill_lags df (50 + k)); auto using order_of_exit).
      split; [| split].
      * repeat (apply Forall_app; split); auto.
      * apply Forall_app. split; [exact Ht |]. constructor; [| constructor].
        destruct (Hp p E) as (j & Hj & Hsj & Hej & _).
        exists j, (50 + k). cbn [closed_trade side entry_price entry_time exit_price exit_time].
        split; [lia |]. split; [exact Hsj |]. split; [exact Hej |].
        split; [exact Hs |]. apply executed_after_row. exact Hn.
      * intros q Eq. injection Eq as <-. apply entered_lags; [| exact Hn].
        rewrite entry_of_other. exact Hs.
Qed.

Lemma lagging_pass (df : list Row) (k : nat) (st : State) :
  pass df k = Some st -> lagging df k st.
Proof.
  revert k st. apply pass_ind.
  - split; [constructor |]. split; [constructor |]. intros p E. discriminate.
  - intros k st st' _ IH Hit. eapply lagging_step; eassumption.
Qed.

(** C1.  Every fill of a run is priced and stamped at the open of the bar
    that follows the bar of its signal; every closed trade but the one of
    the closure at the end of the stream is entered after its entry signal
    bar and left after a later signal bar, in the same way; the closure at
    the end, when there is one, is the last closed trade and leaves at the
    close of the last bar. *)
Theorem execution_lags_signal (bars : list Bar) (r : Result) :
  fallback_backtest_csv bars = Some r ->
  let df := with_indicators bars in
  Forall (fill_lags df) (fills (final r)) /\
  exists mid term,
    positions (final r) = mid ++ term /\
    Forall (trade_lags df) mid /\
    (term = [] \/ exists t, term = [t] /\ trade_closed_at_end df t).
Proof.
  intros H df. unfold fallback_backtest_csv in H. fold df in H.
  apply simulate_inv in H as (st & Hl & Hc & _).
  rewrite run_loop_pass in Hl. apply lagging_pass in Hl as (Hf & Ht & Hp).
  destruct (position st) as [p |] eqn:E.
  - destruct (close_at_end_open df st (final r) p E Hc) as (l & Hlast & ->).
    cbn [fills positions]. split; [exact Hf |].
    exists (positions st), [closed_trade p (close (bar l)) (fromtimestamp (timestamp (bar l)))].
    split; [reflexivity |]. split; [exact Ht |]. right.
    eexists. split; [reflexivity |].
    destruct (Hp p eq_refl) as (j & _ & Hsj & Hej & _).
    exists j, l. cbn [closed_trade side entry_price entry_time exit_price exit_time].
    auto.
  - rewrite (close_at_end_flat df st E) in Hc. injection Hc as <-.
    split; [exact Hf |]. exists (positions st), []. rewrite app_nil_r. auto.
Qed.

Lemma execution_lags_signal_witness :
  exists r,
    fallback_backtest_csv (zigzag_bars 160) = Some r /\
    let df := with_indicators (zigzag_bars 160) in
    Forall (fill_lags df) (fills (final r)) /\
    exists mid term,
      positions (final r) = mid ++ term /\
      Forall (trade_lags df) mid /\
      (term = [] \/ exists t, term = [t] /\ trade_closed_at_end df t).
Proof.
  eexists. split.
  - vm_compute. reflexivity.
  - apply (execution_lags_signal (zigzag_bars 160)). vm_compute. reflexivity.
Defined.

(* ------------------------------------------------------------------ *)
(** ** The pnl of a closed trade *)

Lemma closed_trade_exit_fee_only (p : Position) (price : float) (time : datetime) :
  records_exit_fee_only (closed_trade p price time).
Proof.
  split; [reflexivity |].
  unfold pnl_net_of_exit_fee, gross_pnl, fee, closed_trade, net_pnl_of.
  cbn [pnl side quantity exit_price entry_price].
  destruct (pos_side p); reflexivity.
Qed.

Lemma exit_fee_only_step (df : list Row) (k : nat) (st st' : State) :
  Forall records_exit_fee_only (positions st) ->
  iteration df (50 + k) st = Some st' ->
  Forall records_exit_fee_only (positions st').
Proof.
  intros H Hit.
  apply iteration_cases in Hit as (n & Hn & [[_ ->] | [_ (s & Hs & ->)]]);
    [exact H | | lia].
  rewrite append_equity_positions.
  destruct (meeting s st) as [-> | sd E -> | p E -> | p E ->].
  - exact H.
  - rewrite act_flat by exact E. exact H.
  - rewrite act_same by exact E. exact H.
  - rewrite act_opposite by exact E. cbn [positions].
    apply Forall_app. split; [exact H |].
    constructor; [apply closed_trade_exit_fee_only | constructor].
Qed.

Lemma exit_fee_only_pass (df : list Row) (k : nat) (st : State) :
  pass df k = Some st -> Forall records_exit_fee_only (positions st).
Proof.
  revert k st.
  apply (pass_ind df (fun _ st => Forall records_exit_fee_only (positions st))).
  - constructor.
  - intros k st st' _ IH Hit. eapply exit_fee_only_step; eassumption.
Qed.

(** C2, as the code has it.  The [pnl] of every closed trade is the price
    difference in the direction of the trade times the quantity, less the
    fee of the exit alone, and the quantity is one unit.  The fee of the
    entry is taken from the balance when the position is entered and is no
    part of the recorded [pnl]. *)
Theorem pnl_is_net_of_exit_fee (bars : list Bar) (r : Result) (t : ClosedTrade) :
  fallback_backtest_csv bars = Some r ->
  In t (positions (final r)) ->
  quantity t = 1.0%float /\ pnl t = pnl_net_of_exit_fee t.
Proof.
  unfold fallback_backtest_csv. intros H Hin.
  apply simulate_inv in H as (st & Hl & Hc & _).
  rewrite run_loop_pass in Hl. apply exit_fee_only_pass in Hl.
  assert (HF : Forall records_exit_fee_only (positions (final r))).
  { destruct (position st) as [p |] eqn:E.
    - destruct (close_at_end_open _ st (final r) p E Hc) as (l & _ & ->).
      cbn [positions]. apply Forall_app. split; [exact Hl |].
      constructor; [apply closed_trade_exit_fee_only | constructor].
    - rewrite (close_at_end_flat _ st E) in Hc. injection Hc as <-. exact Hl. }
  rewrite Forall_forall in HF. exact (HF t Hin).
Qed.

Lemma pnl_is_net_of_exit_fee_witness :
  exists r t,
    fallback_backtest_csv (zigzag_bars 160) = Some r /\
    In t (positions (final r)) /\
    quantity t = 1.0%float /\ pnl t = pnl_net_of_exit_fee t.
Proof.
  eexists. eexists. split; [vm_compute; reflexivity |].
  assert (Hin : forall (x : ClosedTrade) l, In x (x :: l)) by (intros; left; reflexivity).
  split; [apply Hin |].
  eapply (pnl_is_net_of_exit_fee (zigzag_bars 160));
    [vm_compute; reflexivity | apply Hin].
Defined.

(** C2 fails as worded: the long trade entered at 176.5 and left at 178.5
    is recorded with pnl 1.98215 (2 less the exit fee 0.01785), whereas
    net of both fees it would be 1.9645; the gap is the entry fee 0.01765,
    far above the tolerance. *)
Lemma pnl_net_of_both_fees_fails :
  exists r t,
    fallback_backtest_csv (zigzag_bars 160) = Some r /\
    In t (positions (final r)) /\
    side t = LONG /\ entry_price t = 176.5%float /\ exit_price t = 178.5%float /\
    within_tolerance (pnl t) (pnl_net_of_both_fees t) = false.
Proof.
  eexists. eexists. split; [vm_compute; reflexivity |].
  split; [left; reflexivity |].
  repeat split; vm_compute; reflexivity.
Qed.

(* ------------------------------------------------------------------ *)
(** ** The equity list *)

Lemma evaluated_bars_S (df : list Row) (k : nat) :
  evaluated_bars df (S k) =
  evaluated_bars df k ++ (if bar_skipped df (50 + k) then [] else [50 + k]).
Proof.
  unfold evaluated_bars. rewrite seq_S, filter_app. cbn [filter].
  destruct (bar_skipped df (50 + k)); reflexivity.
Qed.

Lemma iteration_equity (df : list Row) (i : nat) (st st' : State) :
  50 <= i -> iteration df i st = Some st' ->
  equity st' =
  if bar_skipped df i then equity st else equity st ++ [current_balance st'].
Proof.
  intros Hi Hit.
  apply iteration_cases in Hit as (n & Hn & [[-> ->] | [-> (s & Hs & ->)]]);
    [reflexivity | | exact Hi].
  cbn [append_equity equity current_balance]. rewrite act_equity. reflexivity.
Qed.

Lemma equity_length_pass (df : list Row) (k : nat) (st : State) :
  pass df k = Some st ->
  length (equity st) = 1 + length (evaluated_bars df k).
Proof.
  revert k st.
  apply (pass_ind df (fun k st => length (equity st) = 1 + length (evaluated_bars df k))).
  - reflexivity.
  - intros k st st' _ IH Hit.
    rewrite (iteration_equity df (50 + k) st st') by (lia || exact Hit).
    rewrite evaluated_bars_S, length_app.
    destruct (bar_skipped df (50 + k)); [cbn [length]; lia |].
    rewrite length_app. cbn [length]. lia.
Qed.

(** C4, as the code has it.  During the pass one equity point is appended
    at the end of every iteration that is not skipped, and it holds the
    balance as that iteration leaves it, whether or not the iteration
    touched the balance; a skipped iteration appends none.  After [k]
    iterations the list holds the starting point and one point per bar
    evaluated so far. *)
Theorem equity_point_per_evaluated_bar (df : list Row) (k : nat) (st st' : State) :
  pass df k = Some st ->
  iteration df (50 + k) st = Some st' ->
  length (equity st) = 1 + length (evaluated_bars df k) /\
  equity st' =
    (if bar_skipped df (50 + k) then equity st
     else equity st ++ [current_balance st']).
Proof.
  intros Hp Hit. split.
  - apply equity_length_pass. exact Hp.
  - apply iteration_equity; [lia | exact Hit].
Qed.

Lemma equity_point_per_evaluated_bar_witness :
  exists st st',
    pass (with_indicators (zigzag_bars 160)) 23 = Some st /\
    iteration (with_indicators (zigzag_bars 160)) (50 + 23) st = Some st' /\
    length (equity st) = 1 + length (evaluated_bars (with_indicators (zigzag_bars 160)) 23) /\
    equity st' =
      (if bar_skipped (with_indicators (zigzag_bars 160)) (50 + 23) then equity st
       else equity st ++ [current_balance st']).
Proof.
  eexists. eexists.
  split; [vm_compute; reflexivity |]. split; [vm_compute; reflexivity |].
  apply (equity_point_per_evaluated_bar (with_indicators (zigzag_bars 160)) 23);
    vm_compute; reflexivity.
Defined.

(** C4 fails as worded: on a hundred bars that all close at 100 no fee is
    charged and no trade is closed, yet the equity list grows by one point
    on each of the 49 bars of the range. *)
Lemma equity_points_without_action :
  exists r,
    fallback_backtest_csv (flat_bars 100 100) = Some r /\
    fills (final r) = [] /\ positions (final r) = [] /\
    current_balance (final r) = starting_balance /\
    length (equity (final r)) = 50.
Proof.
  eexists. split; [vm_compute; reflexivity |].
  repeat split; vm_compute; reflexivity.
Qed.

(* ------------------------------------------------------------------ *)
(** ** One position at a time *)

Lemma open_positions_le_1 (st : State) : open_positions st <= 1.
Proof. unfold open_positions. destruct (position st); lia. Qed.

Lemma open_long_occupied (n : Row) (i : nat) (st : State) :
  position st <> None -> open_long n i st = st.
Proof. unfold open_long. destruct (position st); congruence. Qed.

Lemma open_short_occupied (n : Row) (i : nat) (st : State) :
  position st <> None -> open_short n i st = st.
Proof. unfold open_short. destruct (position st); congruence. Qed.

Lemma closed_trade_closes (p : Position) (price : float) (time : datetime) :
  closes p (closed_trade p price time).
Proof. repeat split. Qed.

Lemma ledgers_balanced_step (df : list Row) (k : nat) (st st' : State) :
  ledgers_balanced st -> iteration df (50 + k) st = Some st' ->
  ledgers_balanced st'.
Proof.
  unfold ledgers_balanced, open_positions. intros H Hit.
  apply iteration_cases in Hit as (n & Hn & [[_ ->] | [_ (s & Hs & ->)]]);
    [exact H | | lia].
  rewrite append_equity_fills, append_equity_positions, append_equity_position.
  destruct (meeting s st) as [-> | sd E -> | p E -> | p E ->].
  - exact H.
  - rewrite act_flat by exact E. cbn [fills positions position].
    rewrite E in H. rewrite length_app. cbn [length]. lia.
  - rewrite act_same by exact E. exact H.
  - rewrite act_opposite by exact E. cbn [fills positions position].
    rewrite E in H. rewrite !length_app. cbn [length]. lia.
Qed.

Lemma ledgers_balanced_pass (df : list Row) (k : nat) (st : State) :
  pass df k = Some st -> ledgers_balanced st.
Proof.
  revert k st. apply (pass_ind df (fun _ st => ledgers_balanced st)).
  - reflexivity.
  - intros k st st' _ IH Hit. eapply ledgers_balanced_step; eassumption.
Qed.

(** An iteration that changes the slot found it empty, or closed the
    position it held before it entered the new one. *)
Lemma slot_change (df : list Row) (i : nat) (st st' : State) :
  50 <= i -> iteration df i st = Some st' ->
  position st' <> position st ->
  position st = None \/
  exists p t,
    position st = Some p /\ positions st' = positions st ++ [t] /\ closes p t.
Proof.
  intros Hi Hit Hne.
  apply iteration_cases in Hit as (n & Hn & [[_ ->] | [_ (s & Hs & ->)]]);
    [congruence | | exact Hi].
  rewrite append_equity_position in Hne. rewrite append_equity_positions.
  destruct (meeting s st) as [-> | sd E -> | p E -> | p E ->].
  - rewrite act_nothing in Hne. congruence.
  - left. exact E.
  - rewrite act_same in Hne by exact E. congruence.
  - right. rewrite act_opposite by exact E. cbn [positions].
    eexists p, _. split; [exact E |]. split; [reflexivity |].
    apply closed_trade_closes.
Qed.

(** C5.  At every point of the pass the slot holds at most one position,
    and the ledgers agree with it: the fills that entered a position
    outnumber the closed trades by exactly the number of positions in the
    slot.  A position is entered only into an empty slot: the two entering
    steps leave an occupied state as it is, and an iteration that changes
    the slot either found it empty or closed the position it held, with
    its closed trade recorded, before it entered the new one. *)
Theorem at_most_one_open_position (df : list Row) (k : nat) (st : State) :
  pass df k = Some st ->
  open_positions st <= 1 /\
  length (fills st) = 2 * length (positions st) + open_positions st /\
  (forall n i, position st <> None ->
               open_long n i st = st /\ open_short n i st = st) /\
  (forall st',
      iteration df (50 + k) st = Some st' ->
      position st' <> position st ->
      position st = None \/
      exists p t,
        position st = Some p /\ positions st' = positions st ++ [t] /\
        closes p t).
Proof.
  intros Hp. split; [apply open_positions_le_1 |].
  split; [exact (ledgers_balanced_pass df k st Hp) |]. split.
  - intros n i Hne. split;
      [apply open_long_occupied | apply open_short_occupied]; exact Hne.
  - intros st' Hit Hne. apply (slot_change df (50 + k)); [lia | assumption ..].
Qed.

Lemma at_most_one_open_position_witness :
  exists st,
    pass (with_indicators (zigzag_bars 160)) 73 = Some st /\
    open_positions st <= 1 /\
    length (fills st) = 2 * length (positions st) + open_positions st /\
    (forall n i, position st <> None ->
                 open_long n i st = st /\ open_short n i st = st) /\
    (forall st',
        iteration (with_indicators (zigzag_bars 160)) (50 + 73) st = Some st' ->
        position st' <> position st ->
        position st = None \/
        exists p t,
          position st = Some p /\ positions st' = positions st ++ [t] /\
          closes p t).
Proof.
  eexists. split; [vm_compute; reflexivity |].
  apply (at_most_one_open_position (with_indicators (zigzag_bars 160)) 73).
  vm_compute. reflexivity.
Defined.

(* ------------------------------------------------------------------ *)
(** ** The function returns *)



Lemma close_at_end_keeps (df : list Row) (st st' : State) :
  close_at_end df st = Some st' ->
  fills st' = fills st /\ equity st' = equity st /\ position st' = position st.
Proof.
  intros H. destruct (position st) as [p |] eqn:E.
  - destruct (close_at_end_open df st st' p E H) as (l & _ & ->). auto.
  - rewrite (close_at_end_flat df st E) in H. injection H as <-. auto.
Qed.



(* ------------------------------------------------------------------ *)
(** ** The closure at the end of the stream *)

Lemma open_after_loop_long_frame (df : list Row) (st : State) (p : Position) :
  run_loop df = Some st -> position st = Some p -> 51 < length df.
Proof.
  rewrite run_loop_pass. intros Hl E.
  destruct (length df - 1 - 50) as [| k] eqn:K; [| lia].
  injection Hl as <-. discriminate.
Qed.




(* ------------------------------------------------------------------ *)
(** ** Reversals *)

Lemma signal_at_inv (df : list Row) (i : nat) (s : Signal) :
  signal_at df i s ->
  bar_skipped df i = false /\ forall s', signal_at df i s' -> s' = s.
Proof.
  intros (_ & _ & p & c & Hp & Hc & Hk & Hs). split.
  - rewrite (bar_skipped_rows df i p c Hp Hc). exact Hk.
  - intros s' (_ & _ & p' & c' & Hp' & Hc' & _ & Hs').
    rewrite Hp in Hp'. rewrite Hc in Hc'.
    injection Hp' as <-. injection Hc' as <-. congruence.
Qed.

Lemma exit_is_not_entry (sd : Side) : exit_signal sd <> entry_signal sd.
Proof. destruct sd; discriminate. Qed.

(** C7.  When the signal of a bar reverses the position held, the
    iteration appends exactly two fills, the closing one and the opening
    one, both on the side of the signal, both priced at the open of the
    next bar and stamped with its timestamp; it appends the closed trade
    of the old position and leaves a position of the other side. *)
Theorem reversal_two_fills (df : list Row) (i : nat) (st st' : State)
        (p : Position) (s : Signal) :
  iteration df i st = Some st' ->
  position st = Some p ->
  signal_at df i s ->
  reverses s (pos_side p) ->
  exists next_bar f1 f2 t q,
    iloc df (i + 1) = Some next_bar /\
    fills st' = fills st ++ [f1; f2] /\
    fill_price f1 = open (bar next_bar) /\
    fill_price f2 = fill_price f1 /\
    fill_timestamp f1 = fromtimestamp (timestamp (bar next_bar)) /\
    fill_timestamp f2 = fill_timestamp f1 /\
    fill_side f1 = order_side s /\ fill_side f2 = order_side s /\
    positions st' = positions st ++ [t] /\ closes p t /\
    position st' = Some q /\ pos_side q <> pos_side p.
Proof.
  intros Hit E Hs Hr. unfold reverses in Hr.
  destruct (signal_at_inv df i s Hs) as [Hk Huniq].
  assert (Hi : 50 <= i) by (destruct Hs as [Hi _]; exact Hi).
  apply iteration_cases in Hit as (n & Hn & [[Hk' _] | [_ (s' & Hs' & ->)]]);
    [congruence | | exact Hi].
  rewrite (Huniq s' Hs'), Hr. rewrite act_opposite by exact E.
  cbn [append_equity fills positions position].
  exists n, (market_fill (order_side (exit_signal (pos_side p))) n),
    (market_fill (order_side (exit_signal (pos_side p))) n),
    (closed_trade p (open (bar n)) (fromtimestamp (timestamp (bar n)))),
    (entered (match pos_side p with LONG => SHORT | SHORT => LONG end) n i).
  rewrite <- app_assoc. cbn [app market_fill fill_price fill_timestamp fill_side].
  repeat (split; [first [exact Hn | reflexivity | apply closed_trade_closes] |]).
  cbn [entered pos_side]. destruct (pos_side p); discriminate.
Qed.

Lemma reversal_two_fills_witness :
  exists st st' p,
    pass zigzag_df 73 = Some st /\
    iteration zigzag_df 123 st = Some st' /\
    position st = Some p /\
    signal_at zigzag_df 123 BearishCross /\
    reverses BearishCross (pos_side p) /\
    exists next_bar f1 f2 t q,
      iloc zigzag_df (123 + 1) = Some next_bar /\
      fills st' = fills st ++ [f1; f2] /\
      fill_price f1 = open (bar next_bar) /\
      fill_price f2 = fill_price f1 /\
      fill_timestamp f1 = fromtimestamp (timestamp (bar next_bar)) /\
      fill_timestamp f2 = fill_timestamp f1 /\
      fill_side f1 = order_side BearishCross /\
      fill_side f2 = order_side BearishCross /\
      positions st' = positions st ++ [t] /\ closes p t /\
      position st' = Some q /\ pos_side q <> pos_side p.
Proof.
  assert (Hs : signal_at zigzag_df 123 BearishCross).
  { split; [lia |]. split; [vm_compute; lia |].
    eexists. eexists. split; [vm_compute; reflexivity |].
    split; [vm_compute; reflexivity |]. split; vm_compute; reflexivity. }
  eexists. eexists. eexists.
  split; [vm_compute; reflexivity |].
  split; [vm_compute; reflexivity |].
  split; [vm_compute; reflexivity |].
  split; [exact Hs |]. split; [reflexivity |].
  eapply (reversal_two_fills zigzag_df 123);
    [vm_compute; reflexivity | vm_compute; reflexivity | exact Hs | reflexivity].
Defined.

(* ------------------------------------------------------------------ *)
(** ** A stream without variance *)


(** *** The one-pass rolling mean *)

Lemma add_mean_nobs_le (val : float) (s : Pandas.MeanState) :
  Pandas.nobs (Pandas.add_mean val s) <= S (Pandas.nobs s).
Proof.
  unfold Pandas.add_mean. destruct (PrimFloat.eqb val val); cbn [Pandas.nobs]; lia.
Qed.





Lemma calc_mean_short (w : nat) (s : Pandas.MeanState) :
  Pandas.nobs s < w -> Pandas.calc_mean w s = nan.
Proof.
  intros H. unfold Pandas.calc_mean.
  destruct (Nat.leb_spec w (Pandas.nobs s)) as [L | _]; [lia | reflexivity].
Qed.


(** The mean is missing on the rows before the window is full. *)
Lemma roll_warm_up (w : nat) (values : list float) :
  forall (rest : list float) (i : nat) (s : Pandas.MeanState) (j : nat),
    Pandas.nobs s <= i -> S (i + j) < w ->
    nth j (Pandas.roll_mean_from w values i rest s) nan = nan.
Proof.
  induction rest as [| val rest IH]; intros i s j Hn Hj; [destruct j; reflexivity |].
  cbn [Pandas.roll_mean_from].
  destruct (Nat.leb_spec w i) as [L | _]; [lia |].
  pose proof (add_mean_nobs_le val s) as Ha.
  destruct j as [| j]; cbn [nth].
  - apply calc_mean_short. lia.
  - apply IH; lia.
Qed.

Lemma rolling_mean_warm_up_eq (w : nat) (xs : list float) (i : nat) :
  S i < w -> nth i (Pandas.rolling_mean w xs) nan = nan.
Proof.
  intros H. unfold Pandas.rolling_mean. cbv zeta.
  destruct (Pandas.prep_values xs) as [| v0 vs]; [destruct i; reflexivity |].
  apply roll_warm_up; cbn [Pandas.nobs]; lia.
Qed.




Lemma nth_error_combine_seq (l : list Bar) (a n i j : nat) (b : Bar) :
  nth_error (combine (seq a n) l) i = Some (j, b) ->
  j = a + i /\ nth_error l i = Some b.
Proof.
  revert a n i. induction l as [| b0 l IH]; intros a n i H.
  - destruct n; destruct i; discriminate.
  - destruct n as [| n]; [destruct i; discriminate |].
    destruct i as [| i]; cbn [seq combine nth_error] in H.
    + injection H as <- <-. split; [lia | reflexivity].
    + apply IH in H as [-> H]. split; [lia | exact H].
Qed.

Lemma with_indicators_length (bars : list Bar) :
  length (with_indicators bars) = length bars.
Proof.
  unfold with_indicators. cbv zeta.
  rewrite length_map, length_combine, length_seq. lia.
Qed.

(** Row [i] of the frame holds bar [i] and entry [i] of each column. *)
Lemma with_indicators_row (bars : list Bar) (i : nat) (r : Row) :
  iloc (with_indicators bars) i = Some r ->
  nth_error bars i = Some (bar r) /\
  fast_ma r = nth i (fast_ma_col (map close bars)) nan /\
  slow_ma r = nth i (slow_ma_col (map close bars)) nan /\
  rsi r = nth i (rsi_col (map close bars)) nan.
Proof.
  unfold iloc, with_indicators. cbv zeta. rewrite nth_error_map.
  destruct (nth_error (combine (seq 0 (length bars)) bars) i) as [[j b] |] eqn:E;
    [| discriminate].
  apply nth_error_combine_seq in E as [-> E]. cbn [option_map Nat.add].
  intros H. injection H as <-. cbn [bar fast_ma slow_ma rsi]. auto.
Qed.








(* ------------------------------------------------------------------ *)
(** ** Bars with a missing indicator *)





(* ------------------------------------------------------------------ *)
(** ** The timestamp column of the equity curve *)

Lemma filter_seq_S (f : nat -> bool) (a n : nat) :
  filter f (seq a (S n)) = filter f (seq a n) ++ (if f (a + n) then [a + n] else []).
Proof. rewrite seq_S, filter_app. cbn [filter]. destruct (f (a + n)); reflexivity. Qed.

(** The [j]-th element kept by a filter over a range comes after exactly
    [j] kept elements. *)
Lemma filter_seq_nth (f : nat -> bool) (a n j e : nat) :
  nth_error (filter f (seq a n)) j = Some e ->
  a <= e < a + n /\ f e = true /\ j = length (filter f (seq a (e - a))).
Proof.
  induction n as [| n IH]; intros H.
  - destruct j; discriminate.
  - rewrite filter_seq_S in H.
    destruct (Nat.lt_ge_cases j (length (filter f (seq a n)))) as [Hlt | Hge].
    + rewrite nth_error_app1 in H by exact Hlt.
      destruct (IH H) as (Hr & Hf & Hj). repeat split; [lia | lia | exact Hf | exact Hj].
    + rewrite nth_error_app2 in H by exact Hge.
      destruct (f (a + n)) eqn:F.
      * destruct (j - length (filter f (seq a n))) as [| d] eqn:D;
          [| destruct d; discriminate].
        injection H as <-. replace (a + n - a) with n by lia.
        repeat split; [lia | lia | exact F | lia].
      * destruct (j - length (filter f (seq a n))); discriminate.
Qed.

Lemma filter_seq_full (f : nat -> bool) (a m : nat) :
  length (filter f (seq a m)) <= m /\
  (length (filter f (seq a m)) = m <-> forall i, a <= i < a + m -> f i = true).
Proof.
  induction m as [| m [IHle IHeq]].
  - split; [reflexivity |]. split; [intros _ i Hi; lia | reflexivity].
  - rewrite filter_seq_S, length_app.
    destruct (f (a + m)) eqn:F; cbn [length].
    + split; [lia |]. split.
      * intros H i Hi. destruct (Nat.eq_dec i (a + m)) as [-> | Hne]; [exact F |].
        apply IHeq; lia.
      * intros H. assert (length (filter f (seq a m)) = m)
          by (apply IHeq; intros i Hi; apply H; lia). lia.
    + split; [lia |]. split; [lia |].
      intros H. rewrite H in F by lia. discriminate.
Qed.

Lemma for_each_equity (df : list Row) (idxs : list nat) (st st' : State) :
  (forall i, In i idxs -> 50 <= i) ->
  for_each df idxs st = Some st' ->
  exists tail, equity st' = equity st ++ tail.
Proof.
  revert st. induction idxs as [| i rest IH]; intros st Hi H; cbn [for_each] in H.
  - injection H as <-. exists []. rewrite app_nil_r. reflexivity.
  - destruct (iteration df i st) as [st1 |] eqn:Hit; [| discriminate].
    destruct (IH st1) as [tail Ht]; [intros x Hx; apply Hi; right; exact Hx | exact H |].
    rewrite Ht, (iteration_equity df i st st1) by (try exact Hit; apply Hi; left; reflexivity).
    destruct (bar_skipped df i); [eauto |].
    rewrite <- app_assoc. eauto.
Qed.

Lemma timestamps_at_nth (df : list Row) (a n j : nat) (ts : list datetime) :
  timestamps_at df (seq a n) = Some ts -> j < n ->
  exists row,
    iloc df (a + j) = Some row /\
    nth_error ts j = Some (fromtimestamp (timestamp (bar row))).
Proof.
  revert a j ts. induction n as [| n IH]; intros a j ts H Hj; [lia |].
  cbn [seq timestamps_at] in H.
  destruct (iloc df a) as [r |] eqn:Ha; [| discriminate].
  destruct (timestamps_at df (seq (S a) n)) as [ts' |] eqn:Hts; [| discriminate].
  injection H as <-. destruct j as [| j].
  - exists r. rewrite Nat.add_0_r. auto.
  - destruct (IH (S a) j ts' Hts) as (row & Hrow & Hn); [lia |].
    exists row. replace (a + S j) with (S a + j) by lia. auto.
Qed.

Lemma timestamps_at_length (df : list Row) (idxs : list nat) (ts : list datetime) :
  timestamps_at df idxs = Some ts -> length ts = length idxs.
Proof.
  revert ts. induction idxs as [| i rest IH]; intros ts H; cbn [timestamps_at] in H.
  - injection H as <-. reflexivity.
  - destruct (iloc df i); [| discriminate].
    destruct (timestamps_at df rest) as [ts' |]; [| discriminate].
    injection H as <-. cbn [length]. rewrite (IH ts' eq_refl). reflexivity.
Qed.

(** The point appended by the [j]-th evaluated bar. *)
Lemma equity_point_of_bar (df : list Row) (n j e : nat) (st : State) :
  pass df n = Some st ->
  nth_error (evaluated_bars df n) j = Some e ->
  exists st',
    pass df (S (e - 50)) = Some st' /\
    nth_error (equity st) (S j) = Some (current_balance st') /\
    j <= e - 50 /\ 50 <= e /\
    (j = e - 50 <-> forall i, 50 <= i < e -> bar_skipped df i = false).
Proof.
  intros Hp Hj. unfold evaluated_bars in Hj.
  apply filter_seq_nth in Hj as (Hr & Hf & Hcount).
  set (k := e - 50) in *. assert (He : e = 50 + k) by (unfold k; lia).
  assert (Hn : n = S k + (n - S k)) by lia.
  rewrite Hn, pass_add in Hp.
  destruct (pass df (S k)) as [st1 |] eqn:H1; [| discriminate].
  destruct (pass_S_inv df k st1 H1) as (st0 & H0 & Hit).
  exists st1. split; [reflexivity |].
  pose proof (equity_length_pass df k st0 H0) as Hlen.
  unfold evaluated_bars in Hlen. rewrite <- Hcount in Hlen.
  pose proof (iteration_equity df (50 + k) st0 st1 ltac:(lia) Hit) as Heq.
  rewrite <- He in Heq. apply negb_true_iff in Hf. rewrite Hf in Heq.
  destruct (for_each_equity df (seq (50 + S k) (n - S k)) st1 st) as [tail Ht];
    [intros i Hi; apply in_seq in Hi; lia | exact Hp |].
  split.
  - rewrite Ht, Heq, <- app_assoc.
    rewrite nth_error_app2 by lia.
    replace (S j - length (equity st0)) with 0 by lia. reflexivity.
  - destruct (filter_seq_full (fun i => negb (bar_skipped df i)) 50 k) as [Hle Hiff].
    split; [lia |]. split; [lia |]. rewrite Hcount, Hiff. split.
    + intros H i Hi. apply negb_true_iff. apply H. lia.
    + intros H i Hi. apply negb_true_iff. apply H. lia.
Qed.

(** C10, as the code has it.  The equity list holds the starting point
    and one point per evaluated bar, and its timestamp column is read from
    the rows 50, 51, ... one after the other.  The point appended by the
    [j]-th evaluated bar [e] is therefore written beside the timestamp of
    row [50 + j + 1]; this is the row after [e], as in a run without
    skipped bars, exactly when no bar of the range before [e] was skipped,
    and an earlier row otherwise. *)
Theorem equity_timestamps_shift (bars : list Bar) (r : Result) (j e : nat) :
  fallback_backtest_csv bars = Some r ->
  nth_error (evaluated_bars (with_indicators bars)
                            (length (with_indicators bars) - 1 - 50)) j = Some e ->
  length (equity (final r)) =
    1 + length (evaluated_bars (with_indicators bars)
                               (length (with_indicators bars) - 1 - 50)) /\
  length (equity_timestamps r) = length (equity (final r)) /\
  exists st' row,
    pass (with_indicators bars) (S (e - 50)) = Some st' /\
    nth_error (equity (final r)) (S j) = Some (current_balance st') /\
    iloc (with_indicators bars) (50 + S j) = Some row /\
    nth_error (equity_timestamps r) (S j) = Some (fromtimestamp (timestamp (bar row))) /\
    50 + S j <= e + 1 /\
    (50 + S j = e + 1 <->
     forall i, 50 <= i < e -> bar_skipped (with_indicators bars) i = false).
Proof.
  set (df := with_indicators bars). unfold fallback_backtest_csv. fold df.
  intros H Hj.
  apply simulate_inv in H as (st & Hl & Hc & Hts).
  destruct (close_at_end_keeps df st (final r) Hc) as (_ & He & _).
  rewrite run_loop_pass in Hl.
  pose proof (equity_length_pass df _ st Hl) as Hlen.
  unfold equity_timestamps_of, range in Hts.
  replace (50 + length (equity (final r)) - 50) with (length (equity (final r))) in Hts by lia.
  rewrite He. split; [exact Hlen |].
  split; [rewrite (timestamps_at_length df _ _ Hts), length_seq, He; reflexivity |].
  destruct (equity_point_of_bar df _ j e st Hl Hj) as (st' & Hp' & Hn & Hle & H50 & Hiff).
  assert (HSj : S j < length (equity st))
    by (apply nth_error_Some; rewrite Hn; discriminate).
  destruct (timestamps_at_nth df 50 _ (S j) _ Hts) as (row & Hrow & Hnth);
    [rewrite He; exact HSj |].
  exists st', row. repeat (split; [assumption |]).
  split; [lia |]. rewrite <- Hiff. lia.
Qed.

Lemma equity_timestamps_shift_witness :
  exists r,
    fallback_backtest_csv (zigzag_bars_missing 80 160) = Some r /\
    nth_error (evaluated_bars (with_indicators (zigzag_bars_missing 80 160))
                 (length (with_indicators (zigzag_bars_missing 80 160)) - 1 - 50)) 30
      = Some 131 /\
    length (equity (final r)) =
      1 + length (evaluated_bars (with_indicators (zigzag_bars_missing 80 160))
                    (length (with_indicators (zigzag_bars_missing 80 160)) - 1 - 50)) /\
    length (equity_timestamps r) = length (equity (final r)) /\
    exists st' row,
      pass (with_indicators (zigzag_bars_missing 80 160)) (S (131 - 50)) = Some st' /\
      nth_error (equity (final r)) (S 30) = Some (current_balance st') /\
      iloc (with_indicators (zigzag_bars_missing 80 160)) (50 + S 30) = Some row /\
      nth_error (equity_timestamps r) (S 30) = Some (fromtimestamp (timestamp (bar row))) /\
      50 + S 30 <= 131 + 1 /\
      (50 + S 30 = 131 + 1 <->
       forall i, 50 <= i < 131 ->
                 bar_skipped (with_indicators (zigzag_bars_missing 80 160)) i = false).
Proof.
  eexists. split; [vm_compute; reflexivity |].
  split; [vm_compute; reflexivity |].
  apply (equity_timestamps_shift (zigzag_bars_missing 80 160));
    vm_compute; reflexivity.
Defined.

(** C10 fails as worded: with the close of bar 58 missing in a stream of
    sixty bars, bar 58 is skipped, and yet each of the eight points of the
    bars 50 to 57 is written beside the timestamp of the bar after its own,
    as in a run without skipped bars. *)
Lemma skipped_bar_without_misalignment :
  exists r,
    fallback_backtest_csv (zigzag_bars_missing 58 60) = Some r /\
    bar_skipped tail_gap_df 58 = true /\
    evaluated_bars tail_gap_df (length tail_gap_df - 1 - 50) = seq 50 8 /\
    length (equity (final r)) = 9 /\
    equity_timestamps r =
      map (fun i => fromtimestamp (1700000000 + 60 * Z.of_nat i)%Z) (seq 50 9) /\
    ~ misaligned tail_gap_df (length tail_gap_df - 1 - 50).
Proof.
  assert (Hev : evaluated_bars tail_gap_df (length tail_gap_df - 1 - 50) = seq 50 8)
    by (vm_compute; reflexivity).
  eexists. split; [vm_compute; reflexivity |].
  split; [vm_compute; reflexivity |]. split; [exact Hev |].
  split; [vm_compute; reflexivity |]. split; [vm_compute; reflexivity |].
  intros (j & e & Hj & Hne). rewrite Hev in Hj. apply Hne.
  assert (Hlt : j < length (seq 50 8)) by (apply nth_error_Some; congruence).
  rewrite length_seq in Hlt.
  rewrite nth_error_seq in Hj.
  destruct (Nat.ltb_spec j 8) as [_ | Hge]; [| lia].
  injection Hj as <-. lia.
Qed.

(* ------------------------------------------------------------------ *)
(** ** When the function raises, and what it writes *)

Lemma run_loop_short (df : list Row) :
  length df <= 51 -> run_loop df = Some init_state.
Proof.
  intros H. rewrite run_loop_pass.
  replace (length df - 1 - 50) with 0 by lia. reflexivity.
Qed.

Lemma simulate_short (df : list Row) : length df <= 50 -> simulate df = None.
Proof.
  intros H. unfold simulate. rewrite run_loop_short by lia.
  cbn [close_at_end init_state position equity].
  unfold equity_timestamps_of, range. cbn [length Nat.add Nat.sub seq timestamps_at].
  destruct (iloc df 50) as [r |] eqn:E; [| reflexivity].
  apply iloc_length in E. lia.
Qed.

(** On a frame of fifty rows or fewer the loop body never runs and the
    function raises: row 50, whose timestamp goes with the first equity
    point, is missing (line 244). *)
Theorem raises_on_at_most_50_rows (bars : list Bar) :
  length bars <= 50 ->
  run_loop (with_indicators bars) = Some init_state /\
  fallback_backtest_csv bars = None.
Proof.
  intros H. rewrite <- (with_indicators_length bars) in H. split.
  - apply run_loop_short. lia.
  - apply simulate_short. exact H.
Qed.

Lemma raises_on_at_most_50_rows_witness :
  length (flat_bars 100 50) <= 50 /\
  run_loop (with_indicators (flat_bars 100 50)) = Some init_state /\
  fallback_backtest_csv (flat_bars 100 50) = None.
Proof.
  assert (H : length (flat_bars 100 50) <= 50) by (vm_compute; lia).
  split; [exact H |]. apply (raises_on_at_most_50_rows (flat_bars 100 50) H).
Defined.

(** While the slot is empty nothing has been traded. *)
Lemma flat_is_quiet_step (df : list Row) (k : nat) (st st' : State) :
  (position st = None -> quiet st) ->
  iteration df (50 + k) st = Some st' ->
  position st' = None -> quiet st'.
Proof.
  intros IH Hit Hnone.
  apply iteration_cases in Hit as (n & Hn & [[_ ->] | [_ (s & Hs & ->)]]);
    [exact (IH Hnone) | | lia].
  rewrite append_equity_position in Hnone.
  destruct (meeting s st) as [-> | sd E -> | p E -> | p E ->].
  - rewrite act_nothing in *. destruct (IH Hnone) as (Hf & Hp & Hpos & Hb & He).
    unfold quiet. cbn [append_equity fills positions position current_balance equity].
    repeat (split; [assumption |]).
    apply Forall_app. split; [exact He |]. constructor; [exact Hb | constructor].
  - rewrite act_flat in Hnone by exact E. discriminate.
  - rewrite act_same in Hnone by exact E. congruence.
  - rewrite act_opposite in Hnone by exact E. discriminate.
Qed.

Lemma flat_is_quiet (df : list Row) (k : nat) (st : State) :
  pass df k = Some st -> position st = None -> quiet st.
Proof.
  revert k st. apply (pass_ind df (fun _ st => position st = None -> quiet st)).
  - intros _. unfold quiet, init_state. cbn. repeat (split; [reflexivity |]).
    constructor; [reflexivity | constructor].
  - intros k st st' _ IH Hit. eapply flat_is_quiet_step; eassumption.
Qed.

Lemma slot_stays_taken_step (df : list Row) (i : nat) (st st' : State) :
  50 <= i -> iteration df i st = Some st' ->
  position st <> None -> position st' <> None.
Proof.
  intros Hi Hit Hne.
  apply iteration_cases in Hit as (n & Hn & [[_ ->] | [_ (s & Hs & ->)]]);
    [exact Hne | | exact Hi].
  rewrite append_equity_position.
  destruct (meeting s st) as [-> | sd E -> | p E -> | p E ->].
  - exact Hne.
  - congruence.
  - rewrite act_same by exact E. exact Hne.
  - rewrite act_opposite by exact E. discriminate.
Qed.

Lemma slot_stays_taken (df : list Row) (idxs : list nat) (st st' : State) :
  (forall i, In i idxs -> 50 <= i) ->
  for_each df idxs st = Some st' ->
  position st <> None -> position st' <> None.
Proof.
  revert st. induction idxs as [| i rest IH]; intros st Hi H Hne; cbn [for_each] in H.
  - injection H as <-. exact Hne.
  - destruct (iteration df i st) as [st1 |] eqn:Hit; [| discriminate].
    apply (IH st1); [intros x Hx; apply Hi; right; exact Hx | exact H |].
    apply (slot_stays_taken_step df i st st1); [apply Hi; left; reflexivity | assumption ..].
Qed.

(** During the pass the simulator is flat only before its first trade:
    while the slot is empty both ledgers are empty and the balance and every
    equity point are the starting balance, and once the slot is taken it is
    taken for the rest of the pass (every closure inside the loop is
    followed at once by a new entry). *)
Theorem flat_only_before_first_trade (df : list Row) (k : nat) (st : State) :
  pass df k = Some st ->
  (position st = None -> quiet st) /\
  (position st <> None ->
   forall m st', pass df (k + m) = Some st' -> position st' <> None).
Proof.
  intros Hp. split; [apply (flat_is_quiet df k st Hp) |].
  intros Hne m st' Hp'. rewrite pass_add, Hp in Hp'.
  apply (slot_stays_taken df (seq (50 + k) m) st st');
    [intros i Hi; apply in_seq in Hi; lia | assumption ..].
Qed.

Lemma flat_only_before_first_trade_witness :
  exists st,
    pass zigzag_df 30 = Some st /\
    (position st = None -> quiet st) /\
    (position st <> None ->
     forall m st', pass zigzag_df (30 + m) = Some st' -> position st' <> None).
Proof.
  eexists. split; [vm_compute; reflexivity |].
  apply (flat_only_before_first_trade zigzag_df 30). vm_compute. reflexivity.
Defined.

Lemma ledgers_together (df : list Row) (st st' : State) :
  run_loop df = Some st -> close_at_end df st = Some st' ->
  (fills st' = [] /\ positions st' = []) \/
  (fills st' <> [] /\ positions st' <> []).
Proof.
  intros Hl Hc. rewrite run_loop_pass in Hl.
  destruct (position st) as [p |] eqn:E.
  - right. destruct (close_at_end_open df st st' p E Hc) as (l & _ & ->).
    apply ledgers_balanced_pass in Hl. unfold ledgers_balanced, open_positions in Hl.
    rewrite E in Hl. cbn [fills positions]. split.
    + intros F. rewrite F in Hl. cbn [length] in Hl. lia.
    + intros F. apply (f_equal (@length _)) in F. rewrite length_app in F.
      cbn [length] in F. lia.
  - left. rewrite (close_at_end_flat df st E) in Hc. injection Hc as <-.
    destruct (flat_is_quiet df _ st Hl E) as (Hf & Hp & _). auto.
Qed.

(** When the lines that save the ledgers are reached, after the loop and
    the closure at the end of the stream, the fills file and the positions
    file are written together or not at all: both when the run has a fill,
    neither when it has none. *)
Theorem ledger_files_written_together (bars : list Bar) (st st' : State) :
  run_loop (with_indicators bars) = Some st ->
  close_at_end (with_indicators bars) st = Some st' ->
  saved_ledgers st' =
  match fills st' with
  | [] => []
  | _ :: _ => ["backtest_fills.csv"%string; "backtest_positions.csv"%string]
  end.
Proof.
  intros Hl Hc. pose proof (ledgers_together _ st st' Hl Hc) as H.
  unfold saved_ledgers.
  destruct (fills st') as [| f fs], (positions st') as [| t ts];
    try reflexivity; destruct H as [[A B] | [A B]]; congruence.
Qed.

Lemma ledger_files_written_together_witness :
  exists st st',
    run_loop (with_indicators (zigzag_bars 160)) = Some st /\
    close_at_end (with_indicators (zigzag_bars 160)) st = Some st' /\
    saved_ledgers st' =
    match fills st' with
    | [] => []
    | _ :: _ => ["backtest_fills.csv"%string; "backtest_positions.csv"%string]
    end.
Proof.
  eexists. eexists. split; [vm_compute; reflexivity |].
  split; [vm_compute; reflexivity |].
  refine (ledger_files_written_together (zigzag_bars 160) _ _ _ _);
    [vm_compute; reflexivity | vm_compute; reflexivity].
Defined.

(* ------------------------------------------------------------------ *)
(** ** The last equity point and the ending balance *)

Lemma last_equity_is_balance (df : list Row) (k : nat) (st : State) :
  pass df k = Some st -> last (equity st) nan = current_balance st.
Proof.
  revert k st.
  apply (pass_ind df (fun _ st => last (equity st) nan = current_balance st)).
  - reflexivity.
  - intros k st st' _ IH Hit.
    rewrite (iteration_equity df (50 + k) st st') by (lia || exact Hit).
    destruct (bar_skipped df (50 + k)) eqn:Sk; [| apply last_last].
    apply iteration_cases in Hit as (n & _ & [[_ ->] | [Hk _]]);
      [exact IH | congruence | lia].
Qed.

(** The last point of the equity list is the balance as the loop leaves
    it.  When the run ends with a closure at the end of the stream, the
    ending balance is that point plus the net pnl of the closure; otherwise
    the ending balance is the last point. *)
Theorem ending_balance_and_last_equity_point (bars : list Bar) (r : Result) :
  fallback_backtest_csv bars = Some r ->
  (position (final r) = None ->
   current_balance (final r) = last (equity (final r)) nan) /\
  (forall p, position (final r) = Some p ->
     exists last_bar,
       iloc (with_indicators bars) (length (with_indicators bars) - 1) = Some last_bar /\
       current_balance (final r) =
         (last (equity (final r)) nan + net_pnl_of p (close (bar last_bar)))%float).
Proof.
  unfold fallback_backtest_csv. set (df := with_indicators bars). intros H.
  apply simulate_inv in H as (st & Hl & Hc & _).
  rewrite run_loop_pass in Hl. apply last_equity_is_balance in Hl.
  destruct (position st) as [p |] eqn:E.
  - destruct (close_at_end_open df st (final r) p E Hc) as (l & Hlast & ->).
    cbn [position equity current_balance]. split; [discriminate |].
    intros q Hq. injection Hq as <-. exists l. rewrite Hl. auto.
  - rewrite (close_at_end_flat df st E) in Hc. injection Hc as <-.
    split; [intros _; symmetry; exact Hl | intros p Hp; congruence].
Qed.

Lemma ending_balance_and_last_equity_point_witness :
  exists r,
    fallback_backtest_csv (zigzag_bars 160) = Some r /\
    (position (final r) = None ->
     current_balance (final r) = last (equity (final r)) nan) /\
    (forall p, position (final r) = Some p ->
       exists last_bar,
         iloc (with_indicators (zigzag_bars 160))
              (length (with_indicators (zigzag_bars 160)) - 1) = Some last_bar /\
         current_balance (final r) =
           (last (equity (final r)) nan + net_pnl_of p (close (bar last_bar)))%float).
Proof.
  eexists. split; [vm_compute; reflexivity |].
  apply (ending_balance_and_last_equity_point (zigzag_bars 160)).
  vm_compute. reflexivity.
Defined.

(* ------------------------------------------------------------------ *)
(** ** The closed trades form a chain *)

Lemma last_trade_snoc (l : list ClosedTrade) (t : ClosedTrade) :
  last_trade (l ++ [t]) = Some t.
Proof.
  unfold last_trade. rewrite length_app. cbn [length].
  rewrite nth_error_app2 by lia.
  replace (length l + 1 - 1 - length l) with 0 by lia. reflexivity.
Qed.

Lemma chained_snoc (l : list ClosedTrade) (t : ClosedTrade) :
  chained l ->
  (forall t0, last_trade l = Some t0 -> links t0 t) ->
  chained (l ++ [t]).
Proof.
  intros Hc Hl i t1 t2 H1 H2.
  destruct (Nat.lt_ge_cases (S i) (length l)) as [Hlt | Hge].
  - rewrite nth_error_app1 in H1, H2 by lia. exact (Hc i t1 t2 H1 H2).
  - rewrite nth_error_app2 in H2 by lia.
    destruct (S i - length l) as [| d] eqn:D; [| destruct d; discriminate].
    injection H2 as <-. rewrite nth_error_app1 in H1 by lia.
    apply Hl. unfold last_trade. replace (length l - 1) with i by lia. exact H1.
Qed.

Lemma other_side_differs (sd : Side) :
  match sd with LONG => SHORT | SHORT => LONG end <> sd.
Proof. destruct sd; discriminate. Qed.

Lemma chain_step (df : list Row) (k : nat) (st st' : State) :
  chained (positions st) /\ follows_last (positions st) (position st) ->
  iteration df (50 + k) st = Some st' ->
  chained (positions st') /\ follows_last (positions st') (position st').
Proof.
  intros [Hc Hf] Hit.
  apply iteration_cases in Hit as (n & Hn & [[_ ->] | [_ (s & Hs & ->)]]);
    [auto | | lia].
  rewrite append_equity_positions, append_equity_position.
  destruct (meeting s st) as [-> | sd E -> | p E -> | p E ->].
  - auto.
  - rewrite act_flat by exact E. cbn [positions position]. split; [exact Hc |].
    intros t Ht. destruct (Hf t Ht) as (p & Hp & _). congruence.
  - rewrite act_same by exact E. auto.
  - rewrite act_opposite by exact E. cbn [positions position]. split.
    + apply chained_snoc; [exact Hc |]. intros t0 Ht0.
      destruct (Hf t0 Ht0) as (q & Hq & Hpr & Htm & Hsd).
      rewrite E in Hq. injection Hq as <-. repeat split; assumption.
    + intros t Ht. rewrite last_trade_snoc in Ht. injection Ht as <-.
      eexists. split; [reflexivity |].
      cbn [entered closed_trade pos_entry_price pos_entry_timestamp pos_side
           exit_price exit_time side].
      repeat split. apply other_side_differs.
Qed.

Lemma chain_pass (df : list Row) (k : nat) (st : State) :
  pass df k = Some st ->
  chained (positions st) /\ follows_last (positions st) (position st).
Proof.
  revert k st.
  apply (pass_ind df (fun _ st =>
    chained (positions st) /\ follows_last (positions st) (position st))).
  - split.
    + intros i t1 t2 H. destruct i; discriminate.
    + intros t H. discriminate.
  - intros k st st' _ IH Hit. eapply chain_step; eassumption.
Qed.

(** The closed trades of a run form a chain: each one is entered at the
    price and the time at which the one before it was left, on the other
    side.  This holds for the trade of the closure at the end of the
    stream too. *)
Theorem closed_trades_are_chained (bars : list Bar) (r : Result) :
  fallback_backtest_csv bars = Some r ->
  forall i t1 t2,
    nth_error (positions (final r)) i = Some t1 ->
    nth_error (positions (final r)) (S i) = Some t2 ->
    entry_price t2 = exit_price t1 /\ entry_time t2 = exit_time t1 /\
    side t2 <> side t1.
Proof.
  unfold fallback_backtest_csv. set (df := with_indicators bars). intros H.
  apply simulate_inv in H as (st & Hl & Hc & _).
  rewrite run_loop_pass in Hl. apply chain_pass in Hl as [Hch Hf].
  assert (HF : chained (positions (final r))).
  { destruct (position st) as [p |] eqn:E.
    - destruct (close_at_end_open df st (final r) p E Hc) as (l & _ & ->).
      cbn [positions]. apply chained_snoc; [exact Hch |]. intros t0 Ht0.
      destruct (Hf t0 Ht0) as (q & Hq & Hpr & Htm & Hsd).
      injection Hq as <-. repeat split; assumption.
    - rewrite (close_at_end_flat df st E) in Hc. injection Hc as <-. exact Hch. }
  exact HF.
Qed.

Lemma closed_trades_are_chained_witness :
  exists r t1 t2,
    fallback_backtest_csv (zigzag_bars 160) = Some r /\
    nth_error (positions (final r)) 0 = Some t1 /\
    nth_error (positions (final r)) 1 = Some t2 /\
    entry_price t2 = exit_price t1 /\ entry_time t2 = exit_time t1 /\
    side t2 <> side t1.
Proof.
  eexists. eexists. eexists. split; [vm_compute; reflexivity |].
  split; [reflexivity |]. split; [reflexivity |].
  refine (closed_trades_are_chained (zigzag_bars 160) _ _ 0 _ _ _ _);
    [vm_compute; reflexivity | reflexivity | reflexivity].
Defined.

(* ------------------------------------------------------------------ *)
(** ** The ledgers follow the rows of the file *)

Lemma ascending_nil : ascending [].
Proof. intros i j x y _ H. destruct i; discriminate. Qed.

Lemma ascending_snoc (l : list nat) (y : nat) :
  ascending l -> (forall x, In x l -> x <= y) -> ascending (l ++ [y]).
Proof.
  intros Ho Hle i j u v Hij Hi Hj.
  destruct (Nat.lt_ge_cases j (length l)) as [Hlt | Hge].
  - rewrite nth_error_app1 in Hi, Hj by lia. exact (Ho i j u v Hij Hi Hj).
  - rewrite nth_error_app2 in Hj by lia.
    destruct (j - length l) as [| d] eqn:D; [| destruct d; discriminate].
    injection Hj as <-.
    destruct (Nat.lt_ge_cases i (length l)) as [Hilt | Hige].
    + rewrite nth_error_app1 in Hi by lia. apply Hle.
      apply nth_error_In with i. exact Hi.
    + rewrite nth_error_app2 in Hi by lia.
      replace (i - length l) with 0 in Hi by lia. injection Hi as <-. lia.
Qed.

Lemma in_row_order_nil (df : list Row) (b : nat) : in_row_order df b [].
Proof.
  exists []. split; [constructor |]. split; [apply ascending_nil | constructor].
Qed.

Lemma in_row_order_later (df : list Row) (b b' : nat) (l : list datetime) :
  b <= b' -> in_row_order df b l -> in_row_order df b' l.
Proof.
  intros Hb (idx & F & A & B). exists idx. split; [exact F |].
  split; [exact A |]. eapply Forall_impl; [| exact B].
  cbv beta. intros a Ha. lia.
Qed.

(** A time read from a row at or after the bound goes at the end. *)
Lemma in_row_order_snoc (df : list Row) (b i : nat) (l : list datetime)
      (t : datetime) :
  in_row_order df b l -> b <= i -> time_of_row df i t ->
  in_row_order df i (l ++ [t]).
Proof.
  intros (idx & F & A & B) Hb Ht. exists (idx ++ [i]).
  rewrite Forall_forall in B. split; [| split].
  - apply Forall2_app; [exact F |]. constructor; [exact Ht | constructor].
  - apply ascending_snoc; [exact A |]. intros x Hx. specialize (B x Hx).
    cbv beta in B. lia.
  - apply Forall_app. split.
    + apply Forall_forall. intros x Hx. specialize (B x Hx). cbv beta in B. lia.
    + constructor; [lia | constructor].
Qed.

Lemma in_row_order_file (df : list Row) (b : nat) (l : list datetime) :
  in_row_order df b l -> in_file_order df l.
Proof. intros (idx & F & A & _). exists idx. split; assumption. Qed.

Lemma in_bar_order_later (df : list Row) (b b' : nat) (st : State) :
  b <= b' -> in_bar_order df b st -> in_bar_order df b' st.
Proof.
  intros Hb (A & B & C & D).
  split; [apply (in_row_order_later df b); assumption |].
  split; [apply (in_row_order_later df b); assumption |].
  split; [exact C |].
  intros p Hp. destruct (D p Hp) as (a & Ha & H). exists a. split; [lia | exact H].
Qed.

Lemma in_bar_order_step (df : list Row) (k : nat) (st st' : State) :
  in_bar_order df (50 + k) st ->
  iteration df (50 + k) st = Some st' ->
  in_bar_order df (50 + S k) st'.
Proof.
  intros Hin Hit.
  apply iteration_cases in Hit as (n & Hn & [[_ ->] | [_ (s & Hs & ->)]]);
    [apply (in_bar_order_later df (50 + k)); [lia | exact Hin] | | lia].
  replace (50 + k + 1) with (50 + S k) in Hn by lia.
  assert (Hnew : time_of_row df (50 + S k) (fromtimestamp (timestamp (bar n))))
    by (exists n; split; [exact Hn | reflexivity]).
  unfold in_bar_order.
  rewrite append_equity_fills, append_equity_positions, append_equity_position.
  destruct (meeting s st) as [-> | sd E -> | p E -> | p E ->].
  - apply (in_bar_order_later df (50 + k)); [lia | exact Hin].
  - destruct Hin as (A & B & C & D).
    rewrite act_flat by exact E. cbn [fills positions position].
    rewrite map_app. cbn [map market_fill fill_timestamp].
    split; [apply (in_row_order_snoc df (50 + k)); [exact A | lia | exact Hnew] |].
    split; [apply (in_row_order_later df (50 + k)); [lia | exact B] |].
    split; [exact C |].
    intros q Hq. injection Hq as <-. exists (50 + S k). split; [lia | exact Hnew].
  - rewrite act_same by exact E.
    apply (in_bar_order_later df (50 + k)); [lia | exact Hin].
  - destruct Hin as (A & B & C & D).
    rewrite act_opposite by exact E. cbn [fills positions position].
    rewrite !map_app. cbn [map market_fill fill_timestamp closed_trade exit_time].
    split; [apply (in_row_order_snoc df (50 + S k));
              [apply (in_row_order_snoc df (50 + k)); [exact A | lia | exact Hnew]
              | lia | exact Hnew] |].
    split; [apply (in_row_order_snoc df (50 + k)); [exact B | lia | exact Hnew] |].
    split.
    + apply Forall_app. split; [exact C |]. constructor; [| constructor].
      destruct (D p E) as (a & Ha & Hent).
      exists a, (50 + S k). split; [lia |]. split; [exact Hent | exact Hnew].
    + intros q Hq. injection Hq as <-. exists (50 + S k). split; [lia | exact Hnew].
Qed.

Lemma in_bar_order_pass (df : list Row) (k : nat) (st : State) :
  pass df k = Some st -> in_bar_order df (50 + k) st.
Proof.
  revert k st. apply (pass_ind df (fun k st => in_bar_order df (50 + k) st)).
  - unfold in_bar_order, init_state. cbn [fills positions position map].
    split; [apply in_row_order_nil |]. split; [apply in_row_order_nil |].
    split; [constructor |]. intros p Hp. discriminate.
  - intros k st st' _ IH Hit. apply in_bar_order_step with st; assumption.
Qed.

(** The ledgers follow the rows of the file.  The time of every fill is the
    time read from a row, and from one fill to the next the row never goes
    back; the same holds for the exit times of the closed trades; and every
    closed trade is entered on a row at or before the row on which it is
    left.  The statement is about the rows the times are read from, not
    about the order of the times themselves. *)
Theorem ledgers_in_bar_order (bars : list Bar) (r : Result) :
  fallback_backtest_csv bars = Some r ->
  in_file_order (with_indicators bars) (map fill_timestamp (fills (final r))) /\
  in_file_order (with_indicators bars) (map exit_time (positions (final r))) /\
  Forall (entered_before_left (with_indicators bars)) (positions (final r)).
Proof.
  intros H. unfold fallback_backtest_csv in H.
  set (df := with_indicators bars) in *.
  apply simulate_inv in H as (st & Hl & Hc & _).
  pose proof Hl as Hl0. rewrite run_loop_pass in Hl.
  apply in_bar_order_pass in Hl.
  destruct Hl as (A & B & C & D).
  destruct (position st) as [p |] eqn:E.
  - pose proof (open_after_loop_long_frame df st p Hl0 E) as Hlen.
    destruct (close_at_end_open df st (final r) p E Hc) as (l & Hlast & ->).
    cbn [fills positions].
    assert (Hnew : time_of_row df (length df - 1)
                               (fromtimestamp (timestamp (bar l))))
      by (exists l; split; [exact Hlast | reflexivity]).
    split; [apply (in_row_order_file df _ _ A) |].
    rewrite map_app. cbn [map closed_trade exit_time]. split.
    + apply (in_row_order_file df (length df - 1)).
      apply (in_row_order_snoc df (50 + (length df - 1 - 50)));
        [exact B | lia | exact Hnew].
    + apply Forall_app. split; [exact C |]. constructor; [| constructor].
      destruct (D p eq_refl) as (a & Ha & Hent).
      exists a, (length df - 1). split; [lia |]. split; [exact Hent | exact Hnew].
  - rewrite (close_at_end_flat df st E) in Hc. injection Hc as <-.
    split; [apply (in_row_order_file df _ _ A) |].
    split; [apply (in_row_order_file df _ _ B) | exact C].
Qed.

Lemma ledgers_in_bar_order_witness :
  exists r,
    fallback_backtest_csv (zigzag_bars 160) = Some r /\
    in_file_order (with_indicators (zigzag_bars 160))
                  (map fill_timestamp (fills (final r))) /\
    in_file_order (with_indicators (zigzag_bars 160))
                  (map exit_time (positions (final r))) /\
    Forall (entered_before_left (with_indicators (zigzag_bars 160)))
           (positions (final r)).
Proof.
  eexists. split; [vm_compute; reflexivity |].
  apply (ledgers_in_bar_order (zigzag_bars 160)); vm_compute; reflexivity.
Defined.

(* ------------------------------------------------------------------ *)
(** ** The strategy class and the fallback simulator *)

Lemma on_bar_initialized (cfg : Strategy.MACrossRSIConfig) (pf ps f s r : float)
      (e : Strategy.Exposure) :
  fst (Strategy.on_bar cfg true f s r e (remembering pf ps)) =
  match Strategy.crossover cfg pf ps f s r with
  | BullishCross =>
      match e with
      | Strategy.IsFlat => [Strategy.Buy]
      | Strategy.IsNetShort => [Strategy.CloseAllPositions; Strategy.Buy]
      | Strategy.IsNetLong => []
      end
  | BearishCross =>
      match e with
      | Strategy.IsFlat => [Strategy.Sell]
      | Strategy.IsNetLong => [Strategy.CloseAllPositions; Strategy.Sell]
      | Strategy.IsNetShort => []
      end
  | NoSignal => []
  end.
Proof. reflexivity. Qed.

(** In the same situation the fallback simulator and the strategy class
    decide alike: for previous averages [pf], [ps], current values [f],
    [s], [r] and the exposure that the position slot stands for, the
    simulator appends one fill, on the side of the signal and at the next
    bar, per order the strategy would send under its default thresholds,
    and one closed trade per close-all order. *)
Theorem simulator_fills_strategy_orders (pf ps f s r : float) (n : Row) (i : nat)
        (st : State) :
  fills (act (classify pf ps f s r) n i st) =
    fills st ++
    map (fun _ => market_fill (order_side (classify pf ps f s r)) n)
        (fst (Strategy.on_bar Strategy.default_config true f s r
                              (exposure_of st) (remembering pf ps))) /\
  length (positions (act (classify pf ps f s r) n i st)) =
    length (positions st) +
    length (filter is_close
              (fst (Strategy.on_bar Strategy.default_config true f s r
                                    (exposure_of st) (remembering pf ps)))).
Proof.
  pose proof (on_bar_initialized Strategy.default_config pf ps f s r (exposure_of st)) as Ho.
  change (Strategy.crossover Strategy.default_config pf ps f s r)
    with (classify pf ps f s r) in Ho.
  rewrite Ho. clear Ho. unfold exposure_of.
  destruct (classify pf ps f s r).
  - rewrite act_nothing. cbn [map filter length]. rewrite app_nil_r.
    split; [reflexivity | lia].
  - destruct (position st) as [p |] eqn:E.
    + destruct (pos_side p) eqn:Sd.
      * replace BullishCross with (entry_signal (pos_side p)) by (rewrite Sd; reflexivity).
        rewrite act_same by exact E. cbn [map filter length].
        rewrite app_nil_r. split; [reflexivity | lia].
      * replace BullishCross with (exit_signal (pos_side p)) by (rewrite Sd; reflexivity).
        rewrite act_opposite by exact E. cbn [fills positions map filter is_close length].
        rewrite <- app_assoc, length_app. cbn [app length]. split; [reflexivity | lia].
    + change BullishCross with (entry_signal LONG).
      rewrite act_flat by exact E. cbn [fills positions map filter is_close length].
      split; [reflexivity | lia].
  - destruct (position st) as [p |] eqn:E.
    + destruct (pos_side p) eqn:Sd.
      * replace BearishCross with (exit_signal (pos_side p)) by (rewrite Sd; reflexivity).
        rewrite act_opposite by exact E. cbn [fills positions map filter is_close length].
        rewrite <- app_assoc, length_app. cbn [app length]. split; [reflexivity | lia].
      * replace BearishCross with (entry_signal (pos_side p)) by (rewrite Sd; reflexivity).
        rewrite act_same by exact E. cbn [map filter length].
        rewrite app_nil_r. split; [reflexivity | lia].
    + change BearishCross with (entry_signal SHORT).
      rewrite act_flat by exact E. cbn [fills positions map filter is_close length].
      split; [reflexivity | lia].
Qed.

(** [on_bar] never adds to a position and never closes what is not there:
    whatever the indicators and the memory, it sends no buy order while net
    long, no sell order while net short and no close-all order while flat;
    it sends at most two orders, and a close-all order only as the first of
    two, followed by the entering order. *)
Theorem on_bar_never_adds_to_position (cfg : Strategy.MACrossRSIConfig)
        (initialized : bool) (f s r : float) (e : Strategy.Exposure)
        (self : Strategy.Memory) :
  let orders := fst (Strategy.on_bar cfg initialized f s r e self) in
  (e = Strategy.IsNetLong -> ~ In Strategy.Buy orders) /\
  (e = Strategy.IsNetShort -> ~ In Strategy.Sell orders) /\
  (e = Strategy.IsFlat -> ~ In Strategy.CloseAllPositions orders) /\
  length orders <= 2 /\
  (In Strategy.CloseAllPositions orders ->
   orders = [Strategy.CloseAllPositions; Strategy.Buy] \/
   orders = [Strategy.CloseAllPositions; Strategy.Sell]).
Proof.
  unfold Strategy.on_bar.
  destruct initialized; cbn [negb fst];
    [| repeat split; try (intros _ []); try (intros []); cbn [length]; lia].
  destruct (Strategy.previous_fast_ma self) as [pf |];
    [| repeat split; try (intros _ []); try (intros []); cbn [length]; lia].
  destruct (Strategy.previous_slow_ma self) as [ps |];
    [| repeat split; try (intros _ []); try (intros []); cbn [length]; lia].
  destruct (Strategy.crossover cfg pf ps f s r), e; cbn [In length];
    repeat split; try lia; try congruence;
    try (intros _ H; intuition congruence); try (intros H; intuition congruence).
Qed.

(** After [on_reset] the first bar sends no order, whatever the indicators
    show: it only records the two averages; the decision on the bar after
    it compares against exactly those. *)
Theorem first_bar_after_reset_only_records (cfg : Strategy.MACrossRSIConfig)
        (f1 s1 r1 f2 s2 r2 : float) (e1 e2 : Strategy.Exposure)
        (self : Strategy.Memory) :
  let first := Strategy.on_bar cfg true f1 s1 r1 e1 (Strategy.on_reset self) in
  fst first = [] /\
  snd first = remembering f1 s1 /\
  (fst (Strategy.on_bar cfg true f2 s2 r2 e2 (snd first)) <> [] ->
   Strategy.crossover cfg f1 s1 f2 s2 r2 <> NoSignal).
Proof.
  cbv zeta. split; [reflexivity |]. split; [reflexivity |].
  change (snd (Strategy.on_bar cfg true f1 s1 r1 e1 (Strategy.on_reset self)))
    with (remembering f1 s1).
  rewrite on_bar_initialized.
  destruct (Strategy.crossover cfg f1 s1 f2 s2 r2); congruence.
Qed.

(* ------------------------------------------------------------------ *)
(** ** The report *)

(** Every closed trade is counted once: as won, as lost, or as neither
    when its pnl is zero or NaN.  Won and lost trades together are never
    more than the trades. *)
Theorem wins_and_losses_partition (ps : list ClosedTrade) :
  winning_trades ps + losing_trades ps + undecided_trades ps = length ps /\
  winning_trades ps + losing_trades ps <= length ps.
Proof.
  assert (H : winning_trades ps + losing_trades ps + undecided_trades ps = length ps);
    [| split; [exact H | lia]].
  unfold winning_trades, losing_trades, undecided_trades.
  induction ps as [| p ps IH]; [reflexivity |]. cbn [filter].
  destruct (PrimFloat.ltb 0 (pnl p)) eqn:W.
  - rewrite (ltb_swap_false _ _ W). cbn [negb andb length]. lia.
  - destruct (PrimFloat.ltb (pnl p) 0) eqn:L; cbn [negb andb length]; lia.
Qed.

(* ------------------------------------------------------------------ *)
(** ** The warm-up and the entry point *)

Lemma slow_ma_warm_up (bars : list Bar) (i : nat) (r : Row) :
  iloc (with_indicators bars) i = Some r -> i < 49 ->
  is_nan (slow_ma r) = true.
Proof.
  intros Hr Hi.
  assert (Hlt : i < length (map close bars)).
  { apply iloc_length in Hr. rewrite with_indicators_length in Hr.
    rewrite length_map. exact Hr. }
  apply with_indicators_row in Hr as (_ & _ & -> & _).
  unfold slow_ma_col. rewrite rolling_mean_warm_up_eq by lia. reflexivity.
Qed.

(** Starting the loop at bar 50 loses nothing: every earlier bar that has
    a bar before it would leave through the NaN guards, its previous slow
    average being still in its warm-up. *)
Theorem bars_before_50_would_be_skipped (bars : list Bar) (i : nat) :
  1 <= i -> i < 50 -> i < length bars ->
  bar_skipped (with_indicators bars) i = true.
Proof.
  intros H1 H50 Hlen. rewrite <- with_indicators_length in Hlen.
  destruct (iloc_in_range (with_indicators bars) (i - 1)) as [p Hp]; [lia |].
  destruct (iloc_in_range (with_indicators bars) i) as [c Hc]; [lia |].
  rewrite (bar_skipped_rows _ i p c Hp Hc). unfold skipped, Pandas.isna.
  rewrite (slow_ma_warm_up bars (i - 1) p Hp) by lia.
  rewrite !orb_true_r. reflexivity.
Qed.

Lemma bars_before_50_would_be_skipped_witness :
  1 <= 49 /\ 49 < 50 /\ 49 < length (zigzag_bars 160) /\
  bar_skipped (with_indicators (zigzag_bars 160)) 49 = true.
Proof.
  assert (H : 49 < length (zigzag_bars 160)) by (vm_compute; lia).
  split; [lia |]. split; [lia |]. split; [exact H |].
  apply (bars_before_50_would_be_skipped (zigzag_bars 160) 49); [lia | lia | exact H].
Defined.

(** [run_backtest] always ends with what [fallback_backtest_csv] gives,
    whether or not the trading library is installed and whether or not its
    engine configures.  The fallback runs once, except that it runs twice
    when the library is installed, the engine configures and the fallback
    raises: the first raise is caught and the function is called again.
    The script exits with status 1 exactly when the fallback raises. *)
Theorem run_backtest_is_the_fallback (nautilus_available engine_configures : bool)
        (bars : list Bar) :
  snd (run_backtest nautilus_available engine_configures bars) =
    fallback_backtest_csv bars /\
  (fst (run_backtest nautilus_available engine_configures bars) = 2 <->
   nautilus_available = true /\ engine_configures = true /\
   fallback_backtest_csv bars = None) /\
  (fst (run_backtest nautilus_available engine_configures bars) = 1 \/
   fst (run_backtest nautilus_available engine_configures bars) = 2) /\
  (exit_status nautilus_available engine_configures bars = 1%Z <->
   fallback_backtest_csv bars = None).
Proof.
  assert (Hsnd : snd (run_backtest nautilus_available engine_configures bars) =
                 fallback_backtest_csv bars).
  { unfold run_backtest.
    destruct nautilus_available, engine_configures; cbn [negb snd];
      try reflexivity.
    destruct (fallback_backtest_csv bars); reflexivity. }
  split; [exact Hsnd |]. split; [| split].
  - unfold run_backtest.
    destruct nautilus_available, engine_configures; cbn [negb fst];
      try (split; [discriminate | intros (A & B & _); discriminate]).
    destruct (fallback_backtest_csv bars) as [r |] eqn:F; cbn [fst].
    + split; [discriminate |]. intros (_ & _ & L). discriminate.
    + split; [intros _ | reflexivity]. repeat split.
  - unfold run_backtest.
    destruct nautilus_available, engine_configures; cbn [negb fst]; auto.
    destruct (fallback_backtest_csv bars); cbn [fst]; auto.
  - unfold exit_status. rewrite Hsnd.
    destruct (fallback_backtest_csv bars); split; congruence.
Qed.

(* ------------------------------------------------------------------ *)
(** ** Gains, losses and the drawdown *)

Lemma Prim2SF_zero : Prim2SF 0%float = S754_zero false.
Proof. reflexivity. Qed.

Lemma SFcompare_refl (x : spec_float) :
  x <> S754_nan -> SFcompare x x = Some Eq.
Proof.
  destruct x as [sx | sx | | sx mx ex]; intros H; cbn [SFcompare];
    try congruence; try (destruct sx; reflexivity).
  rewrite Z.compare_refl, Pos.compare_cont_refl. destruct sx; reflexivity.
Qed.

Lemma is_nan_spec (a : float) : is_nan a = true <-> Prim2SF a = S754_nan.
Proof.
  unfold is_nan. rewrite eqb_spec. unfold SFeqb. split.
  - intros H. destruct (Prim2SF a) as [sx | sx | | sx mx ex] eqn:E;
      try reflexivity; rewrite SFcompare_refl in H by discriminate; discriminate.
  - intros ->. reflexivity.
Qed.

Lemma leb_not_nan (a b : float) :
  (a <=? b)%float = true -> is_nan a = false /\ is_nan b = false.
Proof.
  rewrite leb_spec. unfold SFleb. intros H.
  split; apply not_true_is_false; intros N; apply is_nan_spec in N;
    rewrite N in H; [| destruct (Prim2SF a)]; discriminate.
Qed.

Lemma ltb_not_nan (a b : float) :
  (a <? b)%float = true -> is_nan a = false /\ is_nan b = false.
Proof.
  rewrite ltb_spec. unfold SFltb. intros H.
  split; apply not_true_is_false; intros N; apply is_nan_spec in N;
    rewrite N in H; [| destruct (Prim2SF a)]; discriminate.
Qed.

Lemma ltb_leb (a b : float) : (a <? b)%float = true -> (a <=? b)%float = true.
Proof.
  rewrite ltb_spec, leb_spec. unfold SFltb, SFleb.
  destruct (SFcompare (Prim2SF a) (Prim2SF b)) as [[]|]; congruence.
Qed.

(** Below a value that is at most zero is at most zero. *)
Lemma ltb_leb_zero (x m : float) :
  (x <? m)%float = true -> (m <=? 0)%float = true -> (x <=? 0)%float = true.
Proof.
  rewrite ltb_spec, !leb_spec, Prim2SF_zero. unfold SFltb, SFleb.
  destruct (Prim2SF x) as [sx | sx | | sx mx ex],
           (Prim2SF m) as [sm | sm | | sm mm em];
    cbn [SFcompare]; try discriminate; try reflexivity;
    try (destruct sx; discriminate || reflexivity);
    try (destruct sx, sm; discriminate || reflexivity);
    try (destruct sm; discriminate || reflexivity).
Qed.

Lemma opp_of_negative (x : float) :
  (x <? 0)%float = true -> (0 <=? - x)%float = true.
Proof.
  rewrite ltb_spec, leb_spec, opp_spec, Prim2SF_zero. unfold SFltb, SFleb.
  destruct (Prim2SF x) as [sx | sx | | sx mx ex]; cbn [SFcompare SFopp];
    try discriminate; destruct sx; cbn; congruence.
Qed.

Lemma gain_of_sound (x : float) :
  is_nan (gain_of x) = false /\ (0 <=? gain_of x)%float = true.
Proof.
  unfold gain_of. destruct (PrimFloat.ltb 0 x) eqn:H.
  - split; [apply (ltb_not_nan _ _ H) | apply ltb_leb; exact H].
  - split; reflexivity.
Qed.

Lemma loss_of_sound (x : float) :
  is_nan (loss_of x) = false /\ (0 <=? loss_of x)%float = true.
Proof.
  unfold loss_of. destruct (PrimFloat.ltb x 0) eqn:H.
  - pose proof (opp_of_negative x H) as Ho.
    split; [apply (leb_not_nan _ _ Ho) | exact Ho].
  - split; reflexivity.
Qed.

Lemma gain_or_loss_is_zero (x : float) : gain_of x = 0%float \/ loss_of x = 0%float.
Proof.
  unfold gain_of, loss_of. destruct (PrimFloat.ltb 0 x) eqn:H.
  - right. rewrite (ltb_swap_false _ _ H). reflexivity.
  - left. reflexivity.
Qed.

(** The gain and the loss of every row are present and not negative,
    also on the first row and beside a missing close, where both are zero;
    and no row has both a gain and a loss. *)
Theorem gains_and_losses_are_present (closes : list float) :
  Forall (fun g => is_nan g = false /\ (0 <=? g)%float = true) (gain closes) /\
  Forall (fun l => is_nan l = false /\ (0 <=? l)%float = true) (loss closes) /\
  length (gain closes) = length closes /\
  length (loss closes) = length closes /\
  forall i g l,
    nth_error (gain closes) i = Some g -> nth_error (loss closes) i = Some l ->
    g = 0%float \/ l = 0%float.
Proof.
  assert (Hd : forall xs, length (Pandas.diff xs) = length xs).
  { intros [| x tl]; [reflexivity |]. cbn [Pandas.diff length]. f_equal.
    revert x. induction tl as [| y tl IH]; intros x; [reflexivity |].
    cbn [Pandas.diff_from length]. rewrite IH. reflexivity. }
  unfold gain, loss, price_diff. rewrite !length_map, Hd.
  split; [apply Forall_map, Forall_forall; intros x _; apply gain_of_sound |].
  split; [apply Forall_map, Forall_forall; intros x _; apply loss_of_sound |].
  split; [reflexivity |]. split; [reflexivity |].
  intros i g l Hg Hl. rewrite nth_error_map in Hg, Hl.
  destruct (nth_error (Pandas.diff closes) i) as [x |]; [| discriminate].
  injection Hg as <-. injection Hl as <-. apply gain_or_loss_is_zero.
Qed.

Lemma min_step_le (m x : float) :
  (m <=? 0)%float = true ->
  ((if is_nan x then m
    else if is_nan m then x
    else if (x <? m)%float then x else m) <=? 0)%float = true.
Proof.
  intros H. destruct (is_nan x); [exact H |].
  destruct (leb_not_nan _ _ H) as [-> _].
  destruct (PrimFloat.ltb x m) eqn:L; [| exact H].
  apply (ltb_leb_zero x m); assumption.
Qed.

Lemma min_from_le (xs : list float) (m : float) :
  (m <=? 0)%float = true ->
  (fold_left (fun m x => if is_nan x then m
                         else if is_nan m then x
                         else if (x <? m)%float then x else m) xs m <=? 0)%float = true.
Proof.
  revert m. induction xs as [| x xs IH]; intros m H; [exact H |].
  cbn [fold_left]. apply IH. apply min_step_le. exact H.
Qed.

Lemma drawdown_head (tl : list float) :
  drawdown (100000.0%float :: tl) =
  0%float :: map (fun '(e, m) => ((e - m) / m)%float)
                 (combine tl (Pandas.expanding_max_from 100000.0%float tl)).
Proof. reflexivity. Qed.

Lemma equity_head (df : list Row) (k : nat) (st : State) :
  pass df k = Some st -> exists tl, equity st = 100000.0%float :: tl.
Proof.
  unfold pass. intros H.
  destruct (for_each_equity df (seq 50 k) init_state st) as [tl Ht];
    [intros i Hi; apply in_seq in Hi; lia | exact H |].
  exists tl. rewrite Ht. reflexivity.
Qed.

(** The maximum drawdown of the report is never positive and never
    missing: the first point of the equity list is the starting balance,
    whose drawdown is zero, and the minimum skips the missing values. *)
Theorem max_drawdown_is_not_positive (bars : list Bar) (r : Result) :
  fallback_backtest_csv bars = Some r ->
  (max_drawdown (equity (final r)) <=? 0)%float = true /\
  is_nan (max_drawdown (equity (final r))) = false.
Proof.
  unfold fallback_backtest_csv. intros H.
  apply simulate_inv in H as (st & Hl & Hc & _).
  destruct (close_at_end_keeps _ st (final r) Hc) as (_ & He & _).
  rewrite run_loop_pass in Hl. apply equity_head in Hl as [tl Ht].
  assert (Hle : (max_drawdown (equity (final r)) <=? 0)%float = true).
  { rewrite He, Ht. unfold max_drawdown. rewrite drawdown_head.
    unfold Pandas.min. cbn [fold_left].
    apply min_from_le. reflexivity. }
  split; [exact Hle | apply (leb_not_nan _ _ Hle)].
Qed.

Lemma max_drawdown_is_not_positive_witness :
  exists r,
    fallback_backtest_csv (zigzag_bars 160) = Some r /\
    (max_drawdown (equity (final r)) <=? 0)%float = true /\
    is_nan (max_drawdown (equity (final r))) = false.
Proof.
  eexists. split; [vm_compute; reflexivity |].
  apply (max_drawdown_is_not_positive (zigzag_bars 160)). vm_compute. reflexivity.
Defined.

(* ------------------------------------------------------------------ *)
(** ** The balance and the ledgers *)

Lemma replay_snoc_mid (ts : list ClosedTrade) (t : ClosedTrade) (fc fo : Fill) :
  forall (b : float) (fs : list Fill),
    length fs = 2 * length ts ->
    replay b (ts ++ [t]) (fs ++ [fc; fo]) =
    (replay b ts fs + pnl t - fill_commission fo)%float.
Proof.
  induction ts as [| t0 ts IH]; intros b fs H.
  - destruct fs; [reflexivity | discriminate].
  - destruct fs as [| f1 [| f2 fs]]; cbn [length] in H; try lia.
    cbn [app replay]. apply IH. lia.
Qed.

Lemma replay_snoc_end (ts : list ClosedTrade) (t : ClosedTrade) :
  forall (b : float) (fs : list Fill),
    length fs = 2 * length ts ->
    replay b (ts ++ [t]) fs = (replay b ts fs + pnl t)%float.
Proof.
  induction ts as [| t0 ts IH]; intros b fs H.
  - destruct fs; [reflexivity | discriminate].
  - destruct fs as [| f1 [| f2 fs]]; cbn [length] in H; try lia.
    cbn [app replay]. apply IH. lia.
Qed.

Lemma accounted_step (df : list Row) (k : nat) (st st' : State) :
  accounted st -> iteration df (50 + k) st = Some st' -> accounted st'.
Proof.
  intros Ha Hit.
  apply iteration_cases in Hit as (n & Hn & [[_ ->] | [_ (s & Hs & ->)]]);
    [exact Ha | | lia].
  unfold accounted in *.
  rewrite append_equity_position.
  change (fills (append_equity (act s n (50 + k) st))) with (fills (act s n (50 + k) st)).
  change (positions (append_equity (act s n (50 + k) st)))
    with (positions (act s n (50 + k) st)).
  change (current_balance (append_equity (act s n (50 + k) st)))
    with (current_balance (act s n (50 + k) st)).
  destruct (meeting s st) as [-> | sd E -> | p E -> | p E ->].
  - rewrite act_nothing. exact Ha.
  - rewrite E in Ha. destruct Ha as (Hf & Hp & Hb).
    rewrite act_flat by exact E. cbn [fills positions position current_balance].
    rewrite Hf, Hp, Hb. eexists. exists []. split; [reflexivity |].
    split; reflexivity.
  - rewrite act_same by exact E. exact Ha.
  - rewrite E in Ha. destruct Ha as (f0 & rest & Hf & Hlen & Hb).
    rewrite act_opposite by exact E. cbn [fills positions position current_balance].
    rewrite Hf, Hb.
    exists f0, (rest ++ [market_fill (order_side (exit_signal (pos_side p))) n;
                         market_fill (order_side (exit_signal (pos_side p))) n]).
    split; [cbn [app]; rewrite <- app_assoc; reflexivity |].
    split; [rewrite !length_app; cbn [length]; lia |].
    rewrite replay_snoc_mid by exact Hlen. reflexivity.
Qed.

Lemma accounted_pass (df : list Row) (k : nat) (st : State) :
  pass df k = Some st -> accounted st.
Proof.
  revert k st. apply (pass_ind df (fun _ st => accounted st)).
  - unfold accounted, init_state. cbn. auto.
  - intros k st st' _ IH Hit. eapply accounted_step; eassumption.
Qed.

(** The ending balance is exactly the balance replayed from the two
    ledgers in binary64: the starting balance, less the commission of the
    first fill, then for each closed trade plus its pnl and, unless it is the
    closure at the end of the stream, less the commission of the fill that
    enters the next position.  Nothing else ever changes the balance. *)
Theorem ending_balance_replays_ledgers (bars : list Bar) (r : Result) :
  fallback_backtest_csv bars = Some r ->
  current_balance (final r) =
  balance_from_ledgers (fills (final r)) (positions (final r)).
Proof.
  unfold fallback_backtest_csv. set (df := with_indicators bars). intros H.
  apply simulate_inv in H as (st & Hl & Hc & _).
  rewrite run_loop_pass in Hl. apply accounted_pass in Hl. unfold accounted in Hl.
  destruct (position st) as [p |] eqn:E.
  - destruct Hl as (f0 & rest & Hf & Hlen & Hb).
    destruct (close_at_end_open df st (final r) p E Hc) as (l & _ & ->).
    cbn [fills positions current_balance]. rewrite Hf, Hb.
    unfold balance_from_ledgers. rewrite replay_snoc_end by exact Hlen.
    reflexivity.
  - destruct Hl as (Hf & Hp & Hb).
    rewrite (close_at_end_flat df st E) in Hc. injection Hc as <-.
    rewrite Hf, Hp, Hb. reflexivity.
Qed.

Lemma ending_balance_replays_ledgers_witness :
  exists r,
    fallback_backtest_csv (zigzag_bars 160) = Some r /\
    current_balance (final r) =
    balance_from_ledgers (fills (final r)) (positions (final r)).
Proof.
  eexists. split; [vm_compute; reflexivity |].
  apply (ending_balance_replays_ledgers (zigzag_bars 160)). vm_compute. reflexivity.
Defined.

Lemma market_fill_unit (o : OrderSide) (n : Row) : unit_fill (market_fill o n).
Proof. repeat split. Qed.

Lemma unit_fills_step (df : list Row) (k : nat) (st st' : State) :
  Forall unit_fill (fills st) -> iteration df (50 + k) st = Some st' ->
  Forall unit_fill (fills st').
Proof.
  intros H Hit.
  apply iteration_cases in Hit as (n & Hn & [[_ ->] | [_ (s & Hs & ->)]]);
    [exact H | | lia].
  rewrite append_equity_fills.
  destruct (meeting s st) as [-> | sd E -> | p E -> | p E ->].
  - exact H.
  - rewrite act_flat by exact E. cbn [fills].
    apply Forall_app. split; [exact H |].
    constructor; [apply market_fill_unit | constructor].
  - rewrite act_same by exact E. exact H.
  - rewrite act_opposite by exact E. cbn [fills].
    repeat (apply Forall_app; split); try exact H;
      (constructor; [apply market_fill_unit | constructor]).
Qed.

Lemma unit_fills_pass (df : list Row) (k : nat) (st : State) :
  pass df k = Some st -> Forall unit_fill (fills st).
Proof.
  revert k st. apply (pass_ind df (fun _ st => Forall unit_fill (fills st))).
  - constructor.
  - intros k st st' _ IH Hit. eapply unit_fills_step; eassumption.
Qed.

(** Every fill of a run is for one unit of the instrument TEST.SIM and
    carries as commission its price times 0.0001 times its quantity. *)
Theorem fills_are_unit_fills (bars : list Bar) (r : Result) (f : Fill) :
  fallback_backtest_csv bars = Some r ->
  In f (fills (final r)) ->
  fill_quantity f = 1.0%float /\ fill_instrument f = "TEST.SIM"%string /\
  fill_commission f = fee (fill_price f) (fill_quantity f).
Proof.
  unfold fallback_backtest_csv. intros H Hin.
  apply simulate_inv in H as (st & Hl & Hc & _).
  destruct (close_at_end_keeps _ st (final r) Hc) as (Hf & _ & _).
  rewrite run_loop_pass in Hl.
  pose proof (unit_fills_pass _ _ st Hl) as HF.
  rewrite <- Hf in HF. rewrite Forall_forall in HF. exact (HF f Hin).
Qed.

Lemma fills_are_unit_fills_witness :
  exists r f,
    fallback_backtest_csv (zigzag_bars 160) = Some r /\
    In f (fills (final r)) /\
    fill_quantity f = 1.0%float /\ fill_instrument f = "TEST.SIM"%string /\
    fill_commission f = fee (fill_price f) (fill_quantity f).
Proof.
  eexists. eexists. split; [vm_compute; reflexivity |].
  assert (Hin : forall (x : Fill) l, In x (x :: l)) by (intros; left; reflexivity).
  split; [apply Hin |].
  eapply (fills_are_unit_fills (zigzag_bars 160));
    [vm_compute; reflexivity | apply Hin].
Defined.

(* ------------------------------------------------------------------ *)
(** ** The warm-up of the three indicators *)

Lemma is_nan_div_l (a b : float) : is_nan a = true -> is_nan (a / b) = true.
Proof.
  rewrite !is_nan_spec, div_spec. intros ->. reflexivity.
Qed.

Lemma is_nan_div_r (a b : float) : is_nan b = true -> is_nan (a / b) = true.
Proof.
  rewrite !is_nan_spec, div_spec. intros ->. unfold SF64div, SFdiv.
  destruct (Prim2SF a); reflexivity.
Qed.

Lemma is_nan_add_r (a b : float) : is_nan b = true -> is_nan (a + b) = true.
Proof.
  rewrite !is_nan_spec, add_spec. intros ->. unfold SF64add, SFadd.
  destruct (Prim2SF a); reflexivity.
Qed.

Lemma is_nan_sub_r (a b : float) : is_nan b = true -> is_nan (a - b) = true.
Proof.
  rewrite !is_nan_spec, sub_spec. intros ->. unfold SF64sub, SFsub.
  destruct (Prim2SF a); reflexivity.
Qed.

Lemma rolling_mean_warm_up (w : nat) (xs : list float) (i : nat) :
  S i < w -> is_nan (nth i (Pandas.rolling_mean w xs) nan) = true.
Proof.
  intros H. rewrite rolling_mean_warm_up_eq by exact H. reflexivity.
Qed.

Lemma nth_error_combine_l (a b : list float) (i : nat) (x y : float) :
  nth_error (combine a b) i = Some (x, y) -> nth_error a i = Some x.
Proof.
  revert b i. induction a as [| a0 a IH]; intros b i H.
  - destruct i; discriminate.
  - destruct b as [| b0 b]; [destruct i; discriminate |].
    destruct i as [| i]; cbn [combine nth_error] in *.
    + injection H as <- _. reflexivity.
    + apply (IH b i H).
Qed.

Lemma rsi_warm_up (closes : list float) (i : nat) :
  i < 13 -> is_nan (nth i (rsi_col closes) nan) = true.
Proof.
  intros H.
  destruct (nth_error (rsi_col closes) i) as [v |] eqn:E.
  - rewrite (nth_error_nth _ _ nan E).
    unfold rsi_col, rs in E. rewrite !nth_error_map in E.
    destruct (nth_error (combine (avg_gain closes) (avg_loss closes)) i)
      as [[g l] |] eqn:C; [| discriminate].
    injection E as <-.
    apply nth_error_combine_l in C.
    pose proof (rolling_mean_warm_up 14 (gain closes) i ltac:(lia)) as W.
    fold (avg_gain closes) in W. rewrite (nth_error_nth _ _ nan C) in W.
    apply is_nan_sub_r, is_nan_div_r, is_nan_add_r, is_nan_div_l. exact W.
  - apply nth_error_None in E. rewrite nth_overflow by exact E. reflexivity.
Qed.

(** Each indicator is missing on the rows of its warm-up: the fast
    average on rows 0 to 18, the slow average on rows 0 to 48, and the RSI
    on rows 0 to 12 (the first price difference, though missing, counts as
    a zero gain and a zero loss, so thirteen further rows fill the window
    of fourteen). *)
Theorem indicators_missing_in_warm_up (bars : list Bar) (i : nat) (r : Row) :
  iloc (with_indicators bars) i = Some r ->
  (i < 19 -> is_nan (fast_ma r) = true) /\
  (i < 49 -> is_nan (slow_ma r) = true) /\
  (i < 13 -> is_nan (rsi r) = true).
Proof.
  intros Hr. apply with_indicators_row in Hr as (_ & -> & -> & ->).
  split; [| split]; intros H.
  - apply rolling_mean_warm_up. lia.
  - apply rolling_mean_warm_up. lia.
  - apply rsi_warm_up. exact H.
Qed.

Lemma indicators_missing_in_warm_up_witness :
  exists r,
    iloc (with_indicators (zigzag_bars 160)) 5 = Some r /\
    (5 < 19 -> is_nan (fast_ma r) = true) /\
    (5 < 49 -> is_nan (slow_ma r) = true) /\
    (5 < 13 -> is_nan (rsi r) = true).
Proof.
  eexists. split; [vm_compute; reflexivity |].
  apply (indicators_missing_in_warm_up (zigzag_bars 160) 5). vm_compute. reflexivity.
Defined.
